(** * Gardener metrics exporter: the garden metrics collector

    A shallow embedding of [pkg/metrics/metrics.go]: the static catalog of
    metric descriptors, the collector with its [Describe] and [Collect]
    entry points, and the process-wide registration done by
    [SetupMetricsCollector]. *)

From Stdlib Require Import ZArith Ascii String List Lia.
From stdpp Require Import base decidable option list strings gmap fin_maps sets.

Open Scope string_scope.
Open Scope nat_scope.
Open Scope list_scope.

(** ** Prometheus descriptors *)

Module Prom.

(** Characters allowed in metric and label names. *)
Definition isLetter (a : ascii) : bool :=
  let n := nat_of_ascii a in
  ((65 <=? n) && (n <=? 90)) || ((97 <=? n) && (n <=? 122)) || (n =? 95).

Definition isDigit (a : ascii) : bool :=
  let n := nat_of_ascii a in (48 <=? n) && (n <=? 57).

Fixpoint allChars (p : ascii -> bool) (s : string) : bool :=
  match s with
  | EmptyString => true
  | String a r => p a && allChars p r
  end.

(** [model.IsValidMetricName]: [[a-zA-Z_:][a-zA-Z0-9_:]*]. *)
Definition isValidMetricName (s : string) : bool :=
  match s with
  | EmptyString => false
  | String a r =>
      (isLetter a || (nat_of_ascii a =? 58))
      && allChars (fun c => isLetter c || isDigit c || (nat_of_ascii c =? 58)) r
  end.

(** [checkLabelName]: [[a-zA-Z_][a-zA-Z0-9_]*], not reserved ([__] prefix). *)
Definition checkLabelName (s : string) : bool :=
  match s with
  | EmptyString => false
  | String a r =>
      isLetter a && allChars (fun c => isLetter c || isDigit c) r
      && negb (String.prefix "__" s)
  end.

Fixpoint hasDuplicates (l : list string) : bool :=
  match l with
  | [] => false
  | x :: r => bool_decide (x ∈ r) || hasDuplicates r
  end.

(** A descriptor: fully-qualified name, help text, ordered variable label
    names, and whether construction recorded an error ([d.err != nil]).
    The collector only ever builds descriptors without constant labels. *)
Record Desc := mkDesc {
  fqName : string;
  help : string;
  variableLabels : list string;
  err : bool
}.

#[global] Instance Desc_eq_dec : EqDecision Desc.
Proof. solve_decision. Defined.

(** [prometheus.NewDesc(fqName, help, variableLabels, nil)]. *)
Definition NewDesc (fq hlp : string) (labels : list string) : Desc :=
  {| fqName := fq;
     help := hlp;
     variableLabels := labels;
     err := negb (isValidMetricName fq)
            || negb (forallb checkLabelName labels)
            || hasDuplicates labels |}.

End Prom.

Import Prom.

(** ** Metric names *)

Definition metricGardenProjectsStatus := "garden_projects_status".
Definition metricGardenUsersSum := "garden_users_total".

(* Seed metric *)
Definition metricGardenSeedInfo := "garden_seed_info".
Definition metricGardenSeedCondition := "garden_seed_condition".

(* Plant metric *)
Definition metricGardenPlantInfo := "garden_plant_info".
Definition metricGardenPlantCondition := "garden_plant_condition".

(* Shoot metric (available also for Shoots which act as Seed). *)
Definition metricGardenShootCondition := "garden_shoot_condition".
Definition metricGardenShootCreation := "garden_shoot_creation_timestamp".
Definition metricGardenShootHibernated := "garden_shoot_hibernated".
Definition metricGardenShootInfo := "garden_shoot_info".
Definition metricGardenShootNodeMaxTotal := "garden_shoot_node_max_total".
Definition metricGardenShootNodeMinTotal := "garden_shoot_node_min_total".
Definition metricGardenShootOperationProgressPercent := "garden_shoot_operation_progress_percent".
Definition metricGardenShootOperationState := "garden_shoot_operation_states".
Definition metricGardenShootResponseDuration := "garden_shoot_response_duration_milliseconds".

(* Aggregated Shoot metrics (exclude Shoots which act as Seed). *)
Definition metricGardenOperationsTotal := "garden_shoot_operations_total".

(** ** The metric catalog *)

(** The entries of the map literal of [getGardenMetricsDefinitions], in the
    order they are written. *)
Definition gardenMetricsEntries : list (string * Desc) :=
  [ (metricGardenOperationsTotal,
      NewDesc metricGardenOperationsTotal "Count of ongoing operations."
        ["operation"; "state"; "iaas"; "seed"; "version"; "region"]);
    (metricGardenPlantCondition,
      NewDesc metricGardenPlantCondition
        "Condition state of a Plant. Possible values: -1=Unknown|0=Unhealthy|1=Healthy|2=Progressing"
        ["name"; "project"; "condition"]);
    (metricGardenPlantInfo,
      NewDesc metricGardenPlantInfo "Information about a plant."
        ["name"; "project"; "provider"; "region"; "version"]);
    (metricGardenProjectsStatus,
      NewDesc metricGardenProjectsStatus "Status of projects."
        ["name"; "cluster"; "phase"]);
    (metricGardenSeedCondition,
      NewDesc metricGardenSeedCondition "Condition state of a Seed."
        ["name"; "condition"]);
    (metricGardenSeedInfo,
      NewDesc metricGardenSeedInfo "Information about a Seed."
        ["name"; "namespace"; "iaas"; "region"; "visible"; "protected"]);
    (metricGardenShootCondition,
      NewDesc metricGardenShootCondition
        "Condition state of a Shoot. Possible values: -1=Unknown|0=Unhealthy|1=Healthy|2=Progressing"
        ["name"; "project"; "condition"; "operation"; "purpose"; "is_seed"; "iaas"; "uid"]);
    (metricGardenShootCreation,
      NewDesc metricGardenShootCreation "Timestamp of the shoot creation."
        ["name"; "project"; "uid"]);
    (metricGardenShootHibernated,
      NewDesc metricGardenShootHibernated "Hibernation status of a shoot."
        ["name"; "project"; "uid"]);
    (metricGardenShootInfo,
      NewDesc metricGardenShootInfo "Information about a Shoot."
        ["name"; "project"; "iaas"; "version"; "region"; "seed"; "is_seed"]);
    (metricGardenShootNodeMaxTotal,
      NewDesc metricGardenShootNodeMaxTotal "Max node count of a Shoot."
        ["name"; "project"]);
    (metricGardenShootNodeMinTotal,
      NewDesc metricGardenShootNodeMinTotal "Min node count of a Shoot."
        ["name"; "project"]);
    (metricGardenShootOperationProgressPercent,
      NewDesc metricGardenShootOperationProgressPercent
        "Operation progress percent of a Shoot."
        ["name"; "project"; "operation"]);
    (metricGardenShootOperationState,
      NewDesc metricGardenShootOperationState "Operation state of a Shoot."
        ["name"; "project"; "operation"]);
    (metricGardenShootResponseDuration,
      NewDesc metricGardenShootResponseDuration
        "Response time of the Shoot API server. Not provided when not reachable."
        ["name"; "project"]);
    (metricGardenUsersSum,
      NewDesc metricGardenUsersSum "Count of users." ["kind"]) ].

Definition getGardenMetricsDefinitions : gmap string Desc :=
  list_to_map gardenMetricsEntries.
Arguments getGardenMetricsDefinitions : simpl never.

(** The required-metrics table of the specification, with its normalized
    names, written down row by row (the row for the node bounds stands for
    two metrics). *)
Definition requiredMetrics : list (string * list string) :=
  [ ("operations_total", ["operation"; "state"; "iaas"; "seed"; "version"; "region"]);
    ("plant_condition", ["name"; "project"; "condition"]);
    ("plant_info", ["name"; "project"; "provider"; "region"; "version"]);
    ("projects_status", ["name"; "cluster"; "phase"]);
    ("seed_condition", ["name"; "condition"]);
    ("seed_info", ["name"; "namespace"; "iaas"; "region"; "visible"; "protected"]);
    ("shoot_condition",
      ["name"; "project"; "condition"; "operation"; "purpose"; "is_seed"; "iaas"; "uid"]);
    ("shoot_creation_timestamp", ["name"; "project"; "uid"]);
    ("shoot_hibernated", ["name"; "project"; "uid"]);
    ("shoot_info", ["name"; "project"; "iaas"; "version"; "region"; "seed"; "is_seed"]);
    ("shoot_node_max_total", ["name"; "project"]);
    ("shoot_node_min_total", ["name"; "project"]);
    ("shoot_operation_progress_percent", ["name"; "project"; "operation"]);
    ("shoot_operation_states", ["name"; "project"; "operation"]);
    ("shoot_response_duration_milliseconds", ["name"; "project"]);
    ("users_total", ["kind"]) ].

(** How a normalized name of the table is exposed: every metric lives in
    the [garden_] name space, and the aggregated operations counter sits
    under the shoot metrics. *)
Definition exposedName (normalized : string) : string :=
  if decide (normalized = "operations_total")
  then ("garden_shoot_" ++ normalized)%string
  else ("garden_" ++ normalized)%string.

(** ** Samples and the scrape state *)

(** A sample: metric name, label values (in the order of the descriptor's
    label names) and numeric value. *)
Record Sample := mkSample {
  metric : string;
  labelValues : list string;
  value : Z
}.

#[global] Instance Sample_eq_dec : EqDecision Sample.
Proof. solve_decision. Defined.

(** The four resource kinds, named as the extractors are. *)
Inductive Kind := KindProject | KindShoot | KindSeed | KindPlant.

#[global] Instance Kind_eq_dec : EqDecision Kind.
Proof. solve_decision. Defined.

(** What one run of an extractor does: the samples it sends on the channel
    it is handed (a send-only channel), and the label tuples (kind, reason)
    on which it increments [ScrapeFailures]. *)
Record Emission := mkEmission {
  emitted : list Sample;
  failed : list (string * string)
}.

(** The state a scrape acts on: the samples sent so far on the output
    channel, the scrape-failure counter vector, and the log of extractor
    invocations. *)
Record World := mkWorld {
  ch : list Sample;
  scrapeFailures : gmap (string * string) nat;
  invoked : list Kind
}.

(** [ScrapeFailures.With(labels).Inc()]. *)
Definition incFailure (m : gmap (string * string) nat) (l : string * string)
  : gmap (string * string) nat :=
  <[l := S (default 0 (m !! l))]> m.

(** Invoking the extractor of kind [k]: its samples go to the channel in
    the order they are produced, its failures to the counter. *)
Definition invoke (k : Kind) (e : Emission) (w : World) : World :=
  {| ch := foldl (fun c m => c ++ [m]) (ch w) (emitted e);
     scrapeFailures := foldl incFailure (scrapeFailures w) (failed e);
     invoked := invoked w ++ [k] |}.

(** ** The resource snapshots and the per-kind derivation rules

    The extractors ([collectProjectMetrics], [collectShootMetrics],
    [collectSeedMetrics], [collectPlantMetrics]) and the resource types
    are defined in other files of the package; this module follows the
    specification's data model and derivation rules. *)

Module Garden.

(** Modelled from the spec: the condition status mapping, which is not
    part of [metrics.go]. A closed variant with the four states
    Unknown(-1), Unhealthy(0), Healthy(1), Progressing(2). *)
Inductive ConditionState := Unknown | Unhealthy | Healthy | Progressing.

(** Modelled from the spec: the documented value of each state (the help
    text of the condition metrics lists the same four). *)
Definition conditionValue (s : ConditionState) : Z :=
  match s with
  | Unknown => -1
  | Unhealthy => 0
  | Healthy => 1
  | Progressing => 2
  end%Z.

(** Modelled from the spec: the total mapping from raw status strings,
    which is not part of [metrics.go]; unmapped inputs default to
    [Unknown]. *)
Definition conditionState (status : string) : ConditionState :=
  if decide (status = "Unhealthy") then Unhealthy
  else if decide (status = "Healthy") then Healthy
  else if decide (status = "Progressing") then Progressing
  else Unknown.

(** The (value, state name) pairs in increasing order of value. *)
Definition conditionStates : list (Z * string) :=
  [ (conditionValue Unknown, "Unknown");
    (conditionValue Unhealthy, "Unhealthy");
    (conditionValue Healthy, "Healthy");
    (conditionValue Progressing, "Progressing") ].

(** Modelled from the spec: the resource types, which are declared outside
    [metrics.go]; each record holds the attributes of the data model that
    the label sets of the catalog need. *)
Record Condition := mkCondition {
  conditionName : string;
  conditionStatus : string
}.

Record Operation := mkOperation {
  operationType : string;
  operationState : string;
  operationProgress : Z
}.

Record Worker := mkWorker {
  workerMinimum : Z;
  workerMaximum : Z
}.

Record Shoot := mkShoot {
  shootName : string;
  shootProject : string;
  shootIaas : string;
  shootRegion : string;
  shootVersion : string;
  shootSeed : string;
  shootPurpose : string;
  shootUid : string;
  shootHibernated : bool;
  shootCreation : Z;
  shootConditions : list Condition;
  shootLastOperation : option Operation;
  shootIsSeed : bool;
  shootWorkers : list Worker;
  shootResponseDuration : option Z
}.

Record Seed := mkSeed {
  seedName : string;
  seedNamespace : string;
  seedIaas : string;
  seedRegion : string;
  seedVisible : bool;
  seedProtected : bool;
  seedConditions : list Condition
}.

Record Project := mkProject {
  projectName : string;
  projectCluster : string;
  projectPhase : string
}.

Record Plant := mkPlant {
  plantName : string;
  plantProject : string;
  plantProvider : string;
  plantRegion : string;
  plantVersion : string;
  plantConditions : list Condition
}.

(** An entry of a snapshot: a reference that may be nil, an object one
    of whose fields cannot be read, or a well-formed object. *)
Inductive Object (A : Type) :=
| NilReference
| MalformedField (field : string)
| WellFormed (a : A).
Arguments NilReference {A}.
Arguments MalformedField {A} field.
Arguments WellFormed {A} a.

Definition formatBool (b : bool) : string := if b then "true" else "false".

Definition boolValue (b : bool) : Z := if b then 1%Z else 0%Z.

(** Modelled from the spec: condition emission of the absent extractors,
    one sample per attached condition on the kind's [_condition] metric,
    with value the enum of the status and the condition name as the
    [condition] label. *)
Definition conditionSamples (name : string) (labelsOf : string -> list string)
    (cs : list Condition) : list Sample :=
  (fun c => mkSample name (labelsOf (conditionName c))
              (conditionValue (conditionState (conditionStatus c)))) <$> cs.

Definition operationLabel (s : Shoot) : string :=
  match shootLastOperation s with
  | Some op => operationType op
  | None => ""
  end.

Definition sumZ (l : list Z) : Z := foldr Z.add 0%Z l.

Section Shoots.

(** The numeric encoding of an operation state is not fixed by the
    specification. *)
Variable operationStateValue : string -> Z.

(** Modelled from the spec: the per-shoot part of the absent
    [collectShootMetrics]: conditions, info, creation timestamp,
    hibernation, node bounds (none without worker pools), operation
    state and progress (only with an operation) and response duration
    (only when measured). *)
Definition shootSamples (s : Shoot) : list Sample :=
  conditionSamples metricGardenShootCondition
    (fun c => [shootName s; shootProject s; c; operationLabel s; shootPurpose s;
               formatBool (shootIsSeed s); shootIaas s; shootUid s])
    (shootConditions s)
  ++ [mkSample metricGardenShootInfo
        [shootName s; shootProject s; shootIaas s; shootVersion s;
         shootRegion s; shootSeed s; formatBool (shootIsSeed s)] 1%Z]
  ++ [mkSample metricGardenShootCreation
        [shootName s; shootProject s; shootUid s] (shootCreation s)]
  ++ [mkSample metricGardenShootHibernated
        [shootName s; shootProject s; shootUid s] (boolValue (shootHibernated s))]
  ++ match shootWorkers s with
     | [] => []
     | ws =>
         [mkSample metricGardenShootNodeMaxTotal [shootName s; shootProject s]
            (sumZ (workerMaximum <$> ws));
          mkSample metricGardenShootNodeMinTotal [shootName s; shootProject s]
            (sumZ (workerMinimum <$> ws))]
     end
  ++ match shootLastOperation s with
     | None => []
     | Some op =>
         [mkSample metricGardenShootOperationState
            [shootName s; shootProject s; operationType op]
            (operationStateValue (operationState op));
          mkSample metricGardenShootOperationProgressPercent
            [shootName s; shootProject s; operationType op]
            (operationProgress op)]
     end
  ++ match shootResponseDuration s with
     | None => []
     | Some ms =>
         [mkSample metricGardenShootResponseDuration
            [shootName s; shootProject s] ms]
     end.

End Shoots.

(** Modelled from the spec: seed and plant derivation of the absent
    extractors: the condition samples and one info sample of value 1. *)
Definition seedSamples (s : Seed) : list Sample :=
  conditionSamples metricGardenSeedCondition
    (fun c => [seedName s; c]) (seedConditions s)
  ++ [mkSample metricGardenSeedInfo
        [seedName s; seedNamespace s; seedIaas s; seedRegion s;
         formatBool (seedVisible s); formatBool (seedProtected s)] 1%Z].

(** Modelled from the spec: plant derivation of the absent
    [collectPlantMetrics]: the condition samples and one info sample. *)
Definition plantSamples (p : Plant) : list Sample :=
  conditionSamples metricGardenPlantCondition
    (fun c => [plantName p; plantProject p; c]) (plantConditions p)
  ++ [mkSample metricGardenPlantInfo
        [plantName p; plantProject p; plantProvider p; plantRegion p;
         plantVersion p] 1%Z].

(** Modelled from the spec: failure isolation in the absent extractors.
    An object that cannot be processed is skipped and counted on
    [ScrapeFailures] under its kind and the reason; the walk goes on
    with the next object. *)
Definition failureReason {A} (o : Object A) : option string :=
  match o with
  | NilReference => Some "nil reference"
  | MalformedField _ => Some "malformed field"
  | WellFormed _ => None
  end.

(** Modelled from the spec: one step of the walk of an absent extractor. *)
Definition extractObject {A} (kind : string) (samplesOf : A -> list Sample)
    (e : Emission) (o : Object A) : Emission :=
  match o with
  | WellFormed a =>
      {| emitted := emitted e ++ samplesOf a; failed := failed e |}
  | NilReference =>
      {| emitted := emitted e; failed := failed e ++ [(kind, "nil reference")] |}
  | MalformedField _ =>
      {| emitted := emitted e; failed := failed e ++ [(kind, "malformed field")] |}
  end.

(** Modelled from the spec: the walk of an absent extractor over its
    snapshot. *)
Definition extractObjects {A} (kind : string) (samplesOf : A -> list Sample)
    (objs : list (Object A)) : Emission :=
  foldl (extractObject kind samplesOf) {| emitted := []; failed := [] |} objs.

(** Modelled from the spec: the aggregated [operations_total] of the
    absent [collectShootMetrics]. A counter per combination (operation
    type, state, iaas, seed, version, region), bumped for every shoot
    with an operation that does not itself act as a seed. *)
Definition countOperation (counters : gmap (list string) nat) (s : Shoot)
  : gmap (list string) nat :=
  if shootIsSeed s then counters
  else match shootLastOperation s with
       | None => counters
       | Some op =>
           let key := [operationType op; operationState op; shootIaas s;
                       shootSeed s; shootVersion s; shootRegion s] in
           <[key := S (default 0 (counters !! key))]> counters
       end.

Definition wellFormed {A} (objs : list (Object A)) : list A :=
  omap (fun o => match o with WellFormed a => Some a | _ => None end) objs.

(** Modelled from the spec: the samples of the aggregate, one per
    combination that was counted. *)
Definition operationsTotalSamples (shoots : list Shoot) : list Sample :=
  (fun kv => mkSample metricGardenOperationsTotal kv.1 (Z.of_nat kv.2))
    <$> map_to_list (foldl countOperation ∅ shoots).

(** Modelled from the spec: what the absent [collectShootMetrics],
    [collectSeedMetrics] and [collectPlantMetrics] send and count. *)
Definition collectShoots (operationStateValue : string -> Z)
    (objs : list (Object Shoot)) : Emission :=
  let e := extractObjects "shoot" (shootSamples operationStateValue) objs in
  {| emitted := emitted e ++ operationsTotalSamples (wellFormed objs);
     failed := failed e |}.

Definition collectSeeds (objs : list (Object Seed)) : Emission :=
  extractObjects "seed" seedSamples objs.

Definition collectPlants (objs : list (Object Plant)) : Emission :=
  extractObjects "plant" plantSamples objs.

(** The samples of one metric among [l], in the order they were sent. *)
Definition ofMetric (name : string) (l : list Sample) : list Sample :=
  filter (fun m => metric m = name) l.

(** A shoot with other conditions attached, and with another seed flag. *)
Definition withConditions (cs : list Condition) (s : Shoot) : Shoot :=
  mkShoot (shootName s) (shootProject s) (shootIaas s) (shootRegion s)
    (shootVersion s) (shootSeed s) (shootPurpose s) (shootUid s)
    (shootHibernated s) (shootCreation s) cs (shootLastOperation s)
    (shootIsSeed s) (shootWorkers s) (shootResponseDuration s).

Definition withIsSeed (b : bool) (s : Shoot) : Shoot :=
  mkShoot (shootName s) (shootProject s) (shootIaas s) (shootRegion s)
    (shootVersion s) (shootSeed s) (shootPurpose s) (shootUid s)
    (shootHibernated s) (shootCreation s) (shootConditions s)
    (shootLastOperation s) b (shootWorkers s) (shootResponseDuration s).

(** Modelled from the spec: the descriptor of [ScrapeFailures], the
    process-wide failure counter defined in another file of the package,
    labeled by resource kind and failure reason. *)
Definition scrapeFailuresDesc : Desc :=
  NewDesc "garden_scrape_failure_total" "Total count of scraping failures."
    ["kind"; "reason"].

End Garden.

(** ** The collector *)

(** A [*logrus.Logger]: a reference to a logger. *)
Inductive Logger := LoggerRef (addr : nat).

(** The informers are the snapshot readers: each lists the objects of its
    kind that are currently cached. *)
Record gardenMetricsCollector := mkCollector {
  shootInformer : list (Garden.Object Garden.Shoot);
  seedInformer : list (Garden.Object Garden.Seed);
  projectInformer : list (Garden.Object Garden.Project);
  plantInformer : list (Garden.Object Garden.Plant);
  descs : gmap string Desc;
  logger : Logger
}.

(** A [range] loop over a Go map visits every entry once, in an order that
    is not specified and may change from one loop to the next: [it] is an
    admissible iteration of [m]. *)
Definition rangeOver {A} (m : gmap string A) (it : list (string * A)) : Prop :=
  it ≡ₚ map_to_list m.

(** Modelled from the spec: [registerShootCustomizationMetrics], defined in
    another file of the package, sends the dynamically registered
    customization descriptors [custom] on the channel. *)
Definition registerShootCustomizationMetrics (custom : list Desc)
    (ch : list Desc) : list Desc :=
  foldl (fun c d => c ++ [d]) ch custom.

(** [Describe], run with the iteration [it] of [c.descs]; the receiver is a
    pointer, so the collector after the call is returned with the channel. *)
Definition Describe (custom : list Desc) (c : gardenMetricsCollector)
    (it : list (string * Desc)) (ch : list Desc)
  : gardenMetricsCollector * list Desc :=
  let ch := foldl (fun ch kv => ch ++ [kv.2]) ch it in
  (c, registerShootCustomizationMetrics custom ch).

(** The four extractors of a collector. *)
Record Extractors := mkExtractors {
  projectMetrics : gardenMetricsCollector -> Emission;
  shootMetrics : gardenMetricsCollector -> Emission;
  seedMetrics : gardenMetricsCollector -> Emission;
  plantMetrics : gardenMetricsCollector -> Emission
}.

Definition collectProjectMetrics (x : Extractors) (c : gardenMetricsCollector) :=
  invoke KindProject (projectMetrics x c).
Definition collectShootMetrics (x : Extractors) (c : gardenMetricsCollector) :=
  invoke KindShoot (shootMetrics x c).
Definition collectSeedMetrics (x : Extractors) (c : gardenMetricsCollector) :=
  invoke KindSeed (seedMetrics x c).
Definition collectPlantMetrics (x : Extractors) (c : gardenMetricsCollector) :=
  invoke KindPlant (plantMetrics x c).

(** [Collect]. *)
Definition Collect (x : Extractors) (c : gardenMetricsCollector) (w : World) : World :=
  let w := collectProjectMetrics x c w in
  let w := collectShootMetrics x c w in
  let w := collectSeedMetrics x c w in
  let w := collectPlantMetrics x c w in
  w.

(** ** The Prometheus registry *)

Module Registry.

(** Without constant labels the identity of a descriptor is its
    fully-qualified name, and its dimension is the help string with the
    set of label names. (The library hashes both; the hashes are taken
    to be injective.) *)
Definition descID (d : Desc) : string := fqName d.

Definition dimHash (d : Desc) : string * gset string :=
  (help d, list_to_set (variableLabels d)).

(** A collector is identified by the identities of its descriptors (the
    library combines their hashes). *)
Record Registry := mkRegistry {
  collectorsByID : gset (gset string);
  descIDs : gset string;
  dimHashesByName : gmap string (string * gset string);
  uncheckedCollectors : nat
}.

Definition empty : Registry :=
  {| collectorsByID := ∅; descIDs := ∅; dimHashesByName := ∅;
     uncheckedCollectors := 0 |}.

(** The registry knows a name when a descriptor of that name is
    registered, or dimensions are recorded for it. *)
Definition knows (r : Registry) (name : string) : Prop :=
  name ∈ descIDs r \/ is_Some (dimHashesByName r !! name).

(** Every registered collector has its descriptors registered. *)
Definition consistent (r : Registry) : Prop :=
  forall c, c ∈ collectorsByID r -> c ⊆ descIDs r.

Inductive RegisterError :=
| InvalidDescriptor
| InconsistentDimensions
| AlreadyRegistered
| DuplicateDescriptor.

(** What the loop of [Register] accumulates over the descriptors that the
    collector describes. *)
Record Seen := mkSeen {
  newDescIDs : gset string;
  newDimHashesByName : gmap string (string * gset string);
  duplicateDesc : bool
}.

(** One turn of the loop over the described descriptors. *)
Definition check (r : Registry) (acc : Seen) (d : Desc) : RegisterError + Seen :=
  if err d then inl InvalidDescriptor
  else
    let dup := duplicateDesc acc || bool_decide (descID d ∈ descIDs r) in
    let ids := {[descID d]} ∪ newDescIDs acc in
    match dimHashesByName r !! fqName d with
    | Some h =>
        if decide (h = dimHash d)
        then inr (mkSeen ids (newDimHashesByName acc) dup)
        else inl InconsistentDimensions
    | None =>
        match newDimHashesByName acc !! fqName d with
        | Some h =>
            if decide (h = dimHash d)
            then inr (mkSeen ids (newDimHashesByName acc) dup)
            else inl InconsistentDimensions
        | None =>
            inr (mkSeen ids (<[fqName d := dimHash d]> (newDimHashesByName acc)) dup)
        end
    end.

Fixpoint checkAll (r : Registry) (acc : Seen) (ds : list Desc)
  : RegisterError + Seen :=
  match ds with
  | [] => inr acc
  | d :: ds' =>
      match check r acc d with
      | inl e => inl e
      | inr acc' => checkAll r acc' ds'
      end
  end.

(** [Registry.Register] on a collector that describes [ds]: nothing is
    registered unless every test has passed. *)
Definition Register (r : Registry) (ds : list Desc) : RegisterError + Registry :=
  match checkAll r (mkSeen ∅ ∅ false) ds with
  | inl e => inl e
  | inr acc =>
      if decide (newDescIDs acc = ∅) then
        inr {| collectorsByID := collectorsByID r;
               descIDs := descIDs r;
               dimHashesByName := dimHashesByName r;
               uncheckedCollectors := S (uncheckedCollectors r) |}
      else if decide (newDescIDs acc ∈ collectorsByID r) then inl AlreadyRegistered
      else if duplicateDesc acc then inl DuplicateDescriptor
      else
        inr {| collectorsByID := {[newDescIDs acc]} ∪ collectorsByID r;
               descIDs := newDescIDs acc ∪ descIDs r;
               dimHashesByName := newDimHashesByName acc ∪ dimHashesByName r;
               uncheckedCollectors := uncheckedCollectors r |}
  end.

(** The value of a call that returned no error. *)
Definition accepted {A} (x : RegisterError + A) : option A :=
  match x with
  | inl _ => None
  | inr a => Some a
  end.

(** How a call that may panic ends, and the registry it leaves. *)
Inductive Outcome :=
| Returned (r : Registry)
| Panicked (e : RegisterError) (r : Registry).

Definition registryOf (o : Outcome) : Registry :=
  match o with
  | Returned r => r
  | Panicked _ r => r
  end.

Definition isPanic (o : Outcome) : bool :=
  match o with
  | Returned _ => false
  | Panicked _ _ => true
  end.

(** [prometheus.MustRegister(c)] on the default registry, followed by
    [k] when it returns. *)
Definition MustRegister (ds : list Desc) (k : Registry -> Outcome)
    (r : Registry) : Outcome :=
  match Register r ds with
  | inl e => Panicked e r
  | inr r' => k r'
  end.

End Registry.

(** The collector built by [SetupMetricsCollector]. *)
Definition newCollector
    (shootInformer : list (Garden.Object Garden.Shoot))
    (seedInformer : list (Garden.Object Garden.Seed))
    (projectInformer : list (Garden.Object Garden.Project))
    (plantInformer : list (Garden.Object Garden.Plant))
    (logger : Logger) : gardenMetricsCollector :=
  {| shootInformer := shootInformer;
     seedInformer := seedInformer;
     projectInformer := projectInformer;
     plantInformer := plantInformer;
     descs := getGardenMetricsDefinitions;
     logger := logger |}.

(** [SetupMetricsCollector]. The registry calls [Describe] of the collector
    it is given, here with the iteration [it] of the catalog;
    [ScrapeFailures], a counter vector defined in another file of the
    package, describes its one descriptor [scrapeFailuresDesc]. *)
Definition SetupMetricsCollector (custom : list Desc) (scrapeFailuresDesc : Desc)
    (shootInformer : list (Garden.Object Garden.Shoot))
    (seedInformer : list (Garden.Object Garden.Seed))
    (projectInformer : list (Garden.Object Garden.Project))
    (plantInformer : list (Garden.Object Garden.Plant))
    (logger : Logger)
    (it : list (string * Desc)) (r : Registry.Registry) : Registry.Outcome :=
  let metricsCollector :=
    newCollector shootInformer seedInformer projectInformer plantInformer logger in
  Registry.MustRegister (Describe custom metricsCollector it []).2 (fun r =>
  Registry.MustRegister [scrapeFailuresDesc] (fun r =>
  Registry.Returned r) r) r.

(** * Properties *)

(** ** The catalog *)

Lemma definitions_lookup k d :
  getGardenMetricsDefinitions !! k = Some d <-> (k, d) ∈ gardenMetricsEntries.
Proof.
  unfold getGardenMetricsDefinitions. symmetry. apply elem_of_list_to_map.
  vm_compute. repeat (constructor; [by (rewrite ?list_elem_of_In; vm_compute; intuition congruence)|]).
  constructor.
Qed.

(** C1: every row of the required-metrics table has a descriptor in the
    map returned by [getGardenMetricsDefinitions], under its exposed name
    and with exactly the listed labels; the map holds descriptors for the
    sixteen required metrics and for no other name. *)
Theorem definitions_match_required_metrics :
  Forall (fun row => variableLabels <$> getGardenMetricsDefinitions !! exposedName row.1
                     = Some row.2) requiredMetrics
  /\ dom getGardenMetricsDefinitions = list_to_set (exposedName <$> requiredMetrics.*1)
  /\ size getGardenMetricsDefinitions = 16
  /\ length requiredMetrics = 16
  /\ NoDup requiredMetrics.*1.
Proof.
  split; [|split; [|split; [|split]]].
  - unfold requiredMetrics. repeat (constructor; [vm_compute; reflexivity|]). constructor.
  - unfold getGardenMetricsDefinitions. rewrite dom_list_to_map_L.
    reflexivity.
  - vm_compute. reflexivity.
  - reflexivity.
  - apply (bool_decide_unpack _). vm_compute. exact I.
Qed.

(** C9: every key of the map returned by [getGardenMetricsDefinitions] is
    the fully-qualified name of the descriptor stored under it and starts
    with [garden_]; the normalized names [operations_total] and
    [users_total] are exposed as [garden_shoot_operations_total], with one
    more [shoot_] segment, and [garden_users_total]. *)
Theorem definitions_keys_are_names :
  Forall (fun kv => fqName kv.2 = kv.1 /\ String.prefix "garden_" kv.1 = true)
         (map_to_list getGardenMetricsDefinitions)
  /\ metricGardenOperationsTotal = ("garden_" ++ "shoot_" ++ "operations_total")%string
  /\ fqName <$> getGardenMetricsDefinitions !! exposedName "operations_total"
     = Some "garden_shoot_operations_total"
  /\ getGardenMetricsDefinitions !! "garden_operations_total" = None
  /\ metricGardenUsersSum = ("garden_" ++ "users_total")%string
  /\ fqName <$> getGardenMetricsDefinitions !! exposedName "users_total"
     = Some "garden_users_total".
Proof.
  split.
  - apply Forall_forall. intros [k d] Hkd.
    apply elem_of_map_to_list, definitions_lookup in Hkd.
    unfold gardenMetricsEntries in Hkd.
    repeat (apply elem_of_cons in Hkd as [Hkd|Hkd];
            [injection Hkd as -> ->; split; reflexivity|]).
    by apply elem_of_nil in Hkd.
  - repeat split; vm_compute; reflexivity.
Qed.

(** ** Describe *)

Lemma send_all {A} (l ch : list A) : foldl (fun c d => c ++ [d]) ch l = ch ++ l.
Proof.
  revert ch. induction l as [|x l IH]; intros ch; simpl.
  - by rewrite app_nil_r.
  - by rewrite IH, <- app_assoc.
Qed.

Lemma send_all_values {A} (it : list (string * A)) (ch : list A) :
  foldl (fun c kv => c ++ [kv.2]) ch it = ch ++ it.*2.
Proof.
  revert ch. induction it as [|x l IH]; intros ch; simpl.
  - by rewrite app_nil_r.
  - by rewrite IH, <- app_assoc.
Qed.

Lemma Describe_eq custom c it ch :
  Describe custom c it ch = (c, ch ++ it.*2 ++ custom).
Proof.
  unfold Describe, registerShootCustomizationMetrics.
  by rewrite send_all, send_all_values, <- app_assoc.
Qed.

Lemma Describe_nil custom c it :
  (Describe custom c it []).2 = it.*2 ++ custom.
Proof. by rewrite Describe_eq. Qed.

Lemma rangeOver_values {A} (m : gmap string A) it :
  rangeOver m it -> it.*2 ≡ₚ (map_to_list m).*2.
Proof. unfold rangeOver. intros H. by rewrite H. Qed.

Lemma elem_of_range_values {A} (m : gmap string A) it (d : A) :
  rangeOver m it -> d ∈ it.*2 <-> exists k, m !! k = Some d.
Proof.
  intros H. rewrite (rangeOver_values _ _ H), list_elem_of_fmap. split.
  - intros [[k d'] [-> Hkd]]. exists k. by apply elem_of_map_to_list.
  - intros [k Hk]. exists (k, d). split; [done|]. by apply elem_of_map_to_list.
Qed.

(** C7: [Describe] sends every descriptor of the collector's catalog and
    then the customization descriptors, and nothing else; run twice on the
    same collector it leaves the collector (informers, catalog, logger) as
    it was and sends the same descriptors both times, whatever the two
    iterations of the catalog are. *)
Theorem Describe_idempotent
    (custom : list Desc) (c : gardenMetricsCollector)
    (it1 it2 : list (string * Desc)) (ch1 ch2 : list Desc) :
  rangeOver (descs c) it1 -> rangeOver (descs c) it2 ->
  let first := Describe custom c it1 ch1 in
  let second := Describe custom first.1 it2 ch2 in
  first.1 = c /\ second.1 = c
  /\ exists out1 out2,
       first.2 = ch1 ++ out1 /\ second.2 = ch2 ++ out2
       /\ out1 ≡ₚ (map_to_list (descs c)).*2 ++ custom
       /\ out1 ≡ₚ out2
       /\ (forall d, d ∈ out1 <-> (exists k, descs c !! k = Some d) \/ d ∈ custom)
       /\ (forall d, d ∈ out2 <-> d ∈ out1).
Proof.
  intros H1 H2 first second. subst first second.
  rewrite !Describe_eq. simpl. split; [done|split; [done|]].
  exists (it1.*2 ++ custom), (it2.*2 ++ custom).
  pose proof (rangeOver_values _ _ H1) as P1.
  pose proof (rangeOver_values _ _ H2) as P2.
  split; [done|split; [done|]]. split; [by rewrite P1|].
  split; [by rewrite P1, P2|]. split.
  - intros d. by rewrite elem_of_app, (elem_of_range_values _ _ _ H1).
  - intros d. by rewrite !elem_of_app, (elem_of_range_values _ _ _ H1),
      (elem_of_range_values _ _ _ H2).
Qed.

Lemma catalog_values_NoDup : NoDup (map_to_list getGardenMetricsDefinitions).*2.
Proof. apply (bool_decide_unpack _). vm_compute. exact I. Qed.

(** C10: on a constructed collector any two runs of [Describe] send the
    same sixteen catalog descriptors, each once, and after them the
    customization descriptors; the order of the catalog descriptors is
    that of the map iteration, and two admissible iterations exist whose
    emissions differ. *)
Theorem Describe_set_deterministic
    (custom : list Desc)
    (shoots : list (Garden.Object Garden.Shoot))
    (seeds : list (Garden.Object Garden.Seed))
    (projects : list (Garden.Object Garden.Project))
    (plants : list (Garden.Object Garden.Plant)) (lg : Logger) :
  let c := newCollector shoots seeds projects plants lg in
  (forall it1 it2, rangeOver (descs c) it1 -> rangeOver (descs c) it2 ->
     exists p1 p2,
       (Describe custom c it1 []).2 = p1 ++ custom
       /\ (Describe custom c it2 []).2 = p2 ++ custom
       /\ length p1 = 16 /\ length p2 = 16 /\ NoDup p1 /\ NoDup p2
       /\ p1 ≡ₚ p2
       /\ (forall d, d ∈ p1 <-> d ∈ p2)
       /\ (forall d, d ∈ p1 <-> exists k, getGardenMetricsDefinitions !! k = Some d))
  /\ (exists it1 it2, rangeOver (descs c) it1 /\ rangeOver (descs c) it2
        /\ (Describe custom c it1 []).2 <> (Describe custom c it2 []).2).
Proof.
  intros c. split.
  - intros it1 it2 H1 H2. exists it1.*2, it2.*2. rewrite !Describe_nil.
    change (descs c) with getGardenMetricsDefinitions in *.
    pose proof (rangeOver_values _ _ H1) as P1.
    pose proof (rangeOver_values _ _ H2) as P2.
    assert (L : length (map_to_list (descs c)).*2 = 16) by (vm_compute; reflexivity).
    split; [done|split; [done|]].
    split; [by rewrite P1|]. split; [by rewrite P2|].
    split; [rewrite P1; apply catalog_values_NoDup|].
    split; [rewrite P2; apply catalog_values_NoDup|].
    split; [by rewrite P1, P2|]. split.
    + intros d. by rewrite P1, P2.
    + intros d. apply (elem_of_range_values _ _ _ H1).
  - exists (map_to_list (descs c)), (reverse (map_to_list (descs c))).
    split; [unfold rangeOver; reflexivity|]. split; [apply reverse_Permutation|].
    rewrite !Describe_nil. intros E. apply app_inv_tail in E.
    revert E. vm_compute. discriminate.
Qed.

(** ** Collect *)

Lemma invoke_ch k e w : ch (invoke k e w) = ch w ++ emitted e.
Proof. unfold invoke. simpl. apply send_all. Qed.

Lemma invoke_invoked k e w : invoked (invoke k e w) = invoked w ++ [k].
Proof. reflexivity. Qed.

(** C3: every run of [Collect] invokes the four extractors once each, in
    the order Project, Shoot, Seed, Plant, and the channel receives, after
    what it already held, every sample of every extractor in that order. *)
Theorem Collect_order_and_forwarding
    (x : Extractors) (c : gardenMetricsCollector) (w : World) :
  invoked (Collect x c w)
    = invoked w ++ [KindProject; KindShoot; KindSeed; KindPlant]
  /\ ch (Collect x c w)
     = ch w ++ emitted (projectMetrics x c) ++ emitted (shootMetrics x c)
            ++ emitted (seedMetrics x c) ++ emitted (plantMetrics x c)
  /\ Forall (fun e => Forall (fun m => m ∈ ch (Collect x c w)) (emitted e))
       [projectMetrics x c; shootMetrics x c; seedMetrics x c; plantMetrics x c].
Proof.
  assert (E : ch (Collect x c w)
     = ch w ++ emitted (projectMetrics x c) ++ emitted (shootMetrics x c)
            ++ emitted (seedMetrics x c) ++ emitted (plantMetrics x c)).
  { unfold Collect, collectPlantMetrics, collectSeedMetrics, collectShootMetrics,
      collectProjectMetrics. rewrite !invoke_ch. by rewrite <- !app_assoc. }
  split; [|split; [exact E|]].
  - unfold Collect, collectPlantMetrics, collectSeedMetrics, collectShootMetrics,
      collectProjectMetrics. rewrite !invoke_invoked. by rewrite <- !app_assoc.
  - rewrite E. repeat constructor; apply Forall_forall; intros m Hm;
      rewrite !elem_of_app; tauto.
Qed.

(** ** Registration *)

Module RegistryFacts.
Import Registry.

Lemma check_ok r acc d acc' :
  check r acc d = inr acc' ->
  newDescIDs acc' = {[descID d]} ∪ newDescIDs acc
  /\ duplicateDesc acc' = duplicateDesc acc || bool_decide (descID d ∈ descIDs r).
Proof.
  unfold check. intros H.
  repeat case_match; simplify_eq/=; done.
Qed.

Lemma checkAll_ok r ds : forall acc acc',
  checkAll r acc ds = inr acc' ->
  newDescIDs acc' = list_to_set (descID <$> ds) ∪ newDescIDs acc
  /\ duplicateDesc acc'
     = duplicateDesc acc || existsb (fun d => bool_decide (descID d ∈ descIDs r)) ds.
Proof.
  induction ds as [|d ds IH]; intros acc acc' H; simpl in *.
  - simplify_eq. split; [set_solver|]. by rewrite orb_false_r.
  - destruct (check r acc d) as [e|acc1] eqn:E; [done|].
    apply check_ok in E as [E1 E2]. apply IH in H as [H1 H2].
    rewrite H1, H2, E1, E2. split; [set_solver|]. by rewrite orb_assoc.
Qed.

Lemma ids_swap (a b : string) (s : gset string) :
  {[a]} ∪ ({[b]} ∪ s) = {[b]} ∪ ({[a]} ∪ s).
Proof. set_solver. Qed.

Lemma check_swap r acc x y :
  accepted (match check r acc x with inl e => inl e | inr a => check r a y end)
  = accepted (match check r acc y with inl e => inl e | inr a => check r a x end).
Proof.
  unfold check, descID.
  destruct (err x), (err y); simpl; try done;
    try (by repeat (case_match; simplify_eq/=; try done)).
  destruct (decide (fqName y = fqName x)) as [E|NE].
  - rewrite E.
    repeat (case_match; simplify_map_eq/=; try done).
    all: try congruence.
    all: f_equal; f_equal;
      first [ apply ids_swap
            | by (repeat case_bool_decide; destruct (duplicateDesc acc)) ].
  - repeat (case_match; simplify_map_eq/=; try done).
    all: f_equal; f_equal;
      first [ apply ids_swap
            | by apply insert_insert_ne
            | by (repeat case_bool_decide; destruct (duplicateDesc acc)) ].
Qed.

Lemma checkAll_cons2 r acc x y l :
  checkAll r acc (x :: y :: l)
  = match (match check r acc x with inl e => inl e | inr a => check r a y end) with
    | inl e => inl e
    | inr a => checkAll r a l
    end.
Proof. simpl. by destruct (check r acc x). Qed.

(** Whether the loop of [Register] passes, and what it has then
    accumulated, does not depend on the order of the descriptors. *)
Lemma checkAll_perm r ds1 ds2 :
  ds1 ≡ₚ ds2 ->
  forall acc, accepted (checkAll r acc ds1) = accepted (checkAll r acc ds2).
Proof.
  induction 1 as [|x l1 l2 _ IH|x y l|l1 l2 l3 _ IH1 _ IH2]; intros acc.
  - done.
  - simpl. destruct (check r acc x); [done|apply IH].
  - rewrite !checkAll_cons2. pose proof (check_swap r acc y x) as S.
    destruct (match check r acc y with inl e => inl e | inr a => check r a x end),
             (match check r acc x with inl e => inl e | inr a => check r a y end);
      simpl in S; by simplify_eq.
  - by rewrite IH1.
Qed.

Lemma Register_perm r ds1 ds2 :
  ds1 ≡ₚ ds2 -> accepted (Register r ds1) = accepted (Register r ds2).
Proof.
  intros P. unfold Register.
  pose proof (checkAll_perm r ds1 ds2 P (mkSeen ∅ ∅ false)) as S.
  destruct (checkAll r _ ds1), (checkAll r _ ds2); simpl in S; by simplify_eq.
Qed.

Lemma existsb_known r ds d :
  d ∈ ds -> descID d ∈ descIDs r ->
  existsb (fun d => bool_decide (descID d ∈ descIDs r)) ds = true.
Proof.
  intros Hd Hr. apply existsb_exists. exists d. split.
  - by apply list_elem_of_In.
  - by apply bool_decide_eq_true.
Qed.

(** A collector one of whose descriptors is already registered is refused. *)
Lemma Register_known r ds d :
  d ∈ ds -> descID d ∈ descIDs r -> accepted (Register r ds) = None.
Proof.
  intros Hd Hr. unfold Register.
  destruct (checkAll r _ ds) as [e|acc] eqn:E; [done|].
  apply checkAll_ok in E as [E1 E2]. simpl in E2.
  rewrite (existsb_known r ds d Hd Hr) in E2.
  destruct (decide (newDescIDs acc = ∅)) as [Hemp|_].
  - exfalso. rewrite E1 in Hemp.
    assert (descID d ∈ (∅ : gset string)); [|set_solver].
    rewrite <- Hemp. apply elem_of_union_l, elem_of_list_to_set, list_elem_of_fmap.
    by exists d.
  - destruct (decide (newDescIDs acc ∈ collectorsByID r)); [done|].
    by rewrite E2.
Qed.

(** What a successful registration of a collector with a descriptor adds. *)
Lemma Register_ok r ds r' :
  Register r ds = inr r' -> ds <> [] ->
  descIDs r' = list_to_set (descID <$> ds) ∪ descIDs r
  /\ collectorsByID r' = {[list_to_set (descID <$> ds)]} ∪ collectorsByID r
  /\ list_to_set (descID <$> ds) ∉ collectorsByID r.
Proof.
  unfold Register. intros H Hne.
  destruct (checkAll r _ ds) as [e|acc] eqn:E; [done|].
  apply checkAll_ok in E as [E1 _]. simpl in E1. rewrite union_empty_r_L in E1.
  destruct (decide (newDescIDs acc = ∅)) as [Hemp|_].
  - exfalso. destruct ds as [|d ds]; [done|]. rewrite E1 in Hemp. set_solver.
  - destruct (decide (newDescIDs acc ∈ collectorsByID r)) as [|Hnew]; [done|].
    destruct (duplicateDesc acc); [done|]. simplify_eq/=.
    by rewrite <- E1.
Qed.

End RegistryFacts.

Lemma catalog_member it :
  rangeOver getGardenMetricsDefinitions it ->
  NewDesc metricGardenUsersSum "Count of users." ["kind"] ∈ it.*2.
Proof.
  intros H. apply (elem_of_range_values _ _ _ H). exists metricGardenUsersSum.
  vm_compute. reflexivity.
Qed.

Lemma SetupMetricsCollector_eq custom sf shoots seeds projects plants lg it r :
  SetupMetricsCollector custom sf shoots seeds projects plants lg it r
  = match Registry.Register r (it.*2 ++ custom) with
    | inl e => Registry.Panicked e r
    | inr r1 =>
        match Registry.Register r1 [sf] with
        | inl e => Registry.Panicked e r1
        | inr r2 => Registry.Returned r2
        end
    end.
Proof.
  unfold SetupMetricsCollector, Registry.MustRegister. by rewrite Describe_eq.
Qed.

Lemma Setup_panics_when_known custom sf shoots seeds projects plants lg it r d :
  d ∈ it.*2 -> Registry.descID d ∈ Registry.descIDs r ->
  exists e, SetupMetricsCollector custom sf shoots seeds projects plants lg it r
            = Registry.Panicked e r.
Proof.
  intros Hd Hr. rewrite SetupMetricsCollector_eq.
  assert (Hd' : d ∈ it.*2 ++ custom) by (apply elem_of_app; by left).
  pose proof (RegistryFacts.Register_known r _ d Hd' Hr) as K.
  destruct (Registry.Register r (it.*2 ++ custom)) as [e|?]; [by exists e|done].
Qed.

(** ** The derivation rules *)

Module GardenFacts.
Import Garden.

Lemma conditionValue_range (st : ConditionState) :
  (conditionValue st = -1 \/ conditionValue st = 0
   \/ conditionValue st = 1 \/ conditionValue st = 2)%Z.
Proof. destruct st; simpl; auto. Qed.

Lemma conditionSamples_values name labelsOf cs :
  value <$> conditionSamples name labelsOf cs
  = (fun c => conditionValue (conditionState (conditionStatus c))) <$> cs.
Proof. unfold conditionSamples. rewrite <- list_fmap_compose. reflexivity. Qed.

Lemma conditionSamples_metric name labelsOf cs m :
  m ∈ conditionSamples name labelsOf cs -> metric m = name.
Proof.
  unfold conditionSamples. rewrite list_elem_of_fmap. by intros (c & -> & _).
Qed.

Lemma conditionSamples_range name labelsOf cs m :
  m ∈ conditionSamples name labelsOf cs ->
  (value m = -1 \/ value m = 0 \/ value m = 1 \/ value m = 2)%Z.
Proof.
  unfold conditionSamples. rewrite list_elem_of_fmap. intros (c & -> & _).
  apply conditionValue_range.
Qed.

(** The samples of a shoot, one family after the other. *)
Lemma elem_of_shootSamples osv s m :
  m ∈ shootSamples osv s ->
  m ∈ conditionSamples metricGardenShootCondition
        (fun c => [shootName s; shootProject s; c; operationLabel s; shootPurpose s;
                   formatBool (shootIsSeed s); shootIaas s; shootUid s])
        (shootConditions s)
  \/ metric m ∈ [metricGardenShootInfo; metricGardenShootCreation;
                 metricGardenShootHibernated; metricGardenShootNodeMaxTotal;
                 metricGardenShootNodeMinTotal; metricGardenShootOperationState;
                 metricGardenShootOperationProgressPercent;
                 metricGardenShootResponseDuration].
Proof.
  unfold shootSamples. rewrite !elem_of_app.
  intros [H|[H|[H|[H|[H|[H|H]]]]]]; [by left|right..].
  - apply list_elem_of_singleton in H as ->. simpl. set_solver.
  - apply list_elem_of_singleton in H as ->. simpl. set_solver.
  - apply list_elem_of_singleton in H as ->. simpl. set_solver.
  - destruct (shootWorkers s); [by apply elem_of_nil in H|].
    apply elem_of_cons in H as [->|H]; [simpl; set_solver|].
    apply list_elem_of_singleton in H as ->. simpl. set_solver.
  - destruct (shootLastOperation s); [|by apply elem_of_nil in H].
    apply elem_of_cons in H as [->|H]; [simpl; set_solver|].
    apply list_elem_of_singleton in H as ->. simpl. set_solver.
  - destruct (shootResponseDuration s); [|by apply elem_of_nil in H].
    apply list_elem_of_singleton in H as ->. simpl. set_solver.
Qed.

(** *** The samples of one metric *)

Lemma ofMetric_app n l1 l2 : ofMetric n (l1 ++ l2) = ofMetric n l1 ++ ofMetric n l2.
Proof. apply filter_app. Qed.

Lemma ofMetric_fmap_ne {A} n (f : A -> Sample) (l : list A) :
  (forall x, metric (f x) <> n) -> ofMetric n (f <$> l) = [].
Proof.
  intros H. induction l as [|x l IH]; [done|]. rewrite fmap_cons.
  unfold ofMetric in *. rewrite filter_cons_False; [exact IH|apply H].
Qed.

Lemma ofMetric_fmap_eq {A} n (f : A -> Sample) (l : list A) :
  (forall x, metric (f x) = n) -> ofMetric n (f <$> l) = f <$> l.
Proof.
  intros H. induction l as [|x l IH]; [done|]. rewrite fmap_cons.
  unfold ofMetric in *. rewrite filter_cons_True; [by rewrite IH|apply H].
Qed.

(** C6: the value of a condition sample is the enum of the condition's
    status: one of -1, 0, 1, 2, with Unknown = -1, Unhealthy = 0,
    Healthy = 1, Progressing = 2 and -1 for every other status string.
    The condition samples of a shoot, a seed or a plant are exactly one
    per attached condition, in order, each labeled with the name of its
    condition and valued with the enum of that condition's status. *)
Theorem condition_value_total (status : string) :
  let v := conditionValue (conditionState status) in
  (v = -1 \/ v = 0 \/ v = 1 \/ v = 2)%Z
  /\ (status = "Unknown" -> v = (-1)%Z)
  /\ (status = "Unhealthy" -> v = 0%Z)
  /\ (status = "Healthy" -> v = 1%Z)
  /\ (status = "Progressing" -> v = 2%Z)
  /\ (status ∉ ["Unhealthy"; "Healthy"; "Progressing"] -> v = (-1)%Z)
  /\ (forall c, conditionStatus c = status ->
      (forall osv s, c ∈ shootConditions s ->
         exists m, m ∈ ofMetric metricGardenShootCondition (shootSamples osv s)
                   /\ value m = v)
      /\ (forall s, c ∈ seedConditions s ->
         exists m, m ∈ ofMetric metricGardenSeedCondition (seedSamples s)
                   /\ value m = v)
      /\ (forall p, c ∈ plantConditions p ->
         exists m, m ∈ ofMetric metricGardenPlantCondition (plantSamples p)
                   /\ value m = v))
  /\ (forall osv s m, m ∈ ofMetric metricGardenShootCondition (shootSamples osv s) ->
        (value m = -1 \/ value m = 0 \/ value m = 1 \/ value m = 2)%Z)
  /\ (forall s m, m ∈ ofMetric metricGardenSeedCondition (seedSamples s) ->
        (value m = -1 \/ value m = 0 \/ value m = 1 \/ value m = 2)%Z)
  /\ (forall p m, m ∈ ofMetric metricGardenPlantCondition (plantSamples p) ->
        (value m = -1 \/ value m = 0 \/ value m = 1 \/ value m = 2)%Z)
  /\ (forall osv s,
        ofMetric metricGardenShootCondition (shootSamples osv s)
        = (fun c => mkSample metricGardenShootCondition
                      [shootName s; shootProject s; conditionName c;
                       operationLabel s; shootPurpose s;
                       formatBool (shootIsSeed s); shootIaas s; shootUid s]
                      (conditionValue (conditionState (conditionStatus c))))
            <$> shootConditions s)
  /\ (forall s,
        ofMetric metricGardenSeedCondition (seedSamples s)
        = (fun c => mkSample metricGardenSeedCondition
                      [seedName s; conditionName c]
                      (conditionValue (conditionState (conditionStatus c))))
            <$> seedConditions s)
  /\ (forall p,
        ofMetric metricGardenPlantCondition (plantSamples p)
        = (fun c => mkSample metricGardenPlantCondition
                      [plantName p; plantProject p; conditionName c]
                      (conditionValue (conditionState (conditionStatus c))))
            <$> plantConditions p).
Proof.
  intros v. subst v.
  split; [apply conditionValue_range|].
  split; [by intros ->|]. split; [by intros ->|].
  split; [by intros ->|]. split; [by intros ->|].
  split.
  { intros H. unfold conditionState.
    repeat (case_decide; [subst; exfalso; apply H; set_solver|]). reflexivity. }
  split.
  { intros c <-. split; [|split].
    - intros osv s Hc.
      exists (mkSample metricGardenShootCondition
                [shootName s; shootProject s; conditionName c; operationLabel s;
                 shootPurpose s; formatBool (shootIsSeed s); shootIaas s; shootUid s]
                (conditionValue (conditionState (conditionStatus c)))).
      split; [|reflexivity]. apply list_elem_of_filter. split; [reflexivity|].
      unfold shootSamples. apply elem_of_app. left.
      unfold conditionSamples. apply list_elem_of_fmap. by exists c.
    - intros s Hc.
      exists (mkSample metricGardenSeedCondition [seedName s; conditionName c]
                (conditionValue (conditionState (conditionStatus c)))).
      split; [|reflexivity]. apply list_elem_of_filter. split; [reflexivity|].
      unfold seedSamples. apply elem_of_app. left.
      unfold conditionSamples. apply list_elem_of_fmap. by exists c.
    - intros p Hc.
      exists (mkSample metricGardenPlantCondition
                [plantName p; plantProject p; conditionName c]
                (conditionValue (conditionState (conditionStatus c)))).
      split; [|reflexivity]. apply list_elem_of_filter. split; [reflexivity|].
      unfold plantSamples. apply elem_of_app. left.
      unfold conditionSamples. apply list_elem_of_fmap. by exists c. }
  split; [|split; [|split; [|split; [|split]]]].
  - intros osv s m [Hm H]%list_elem_of_filter.
    apply elem_of_shootSamples in H as [H|H];
      [by apply conditionSamples_range in H|].
    exfalso. rewrite Hm in H.
    repeat (apply elem_of_cons in H as [H|H]; [discriminate H|]).
    by apply elem_of_nil in H.
  - intros s m [Hm H]%list_elem_of_filter. unfold seedSamples in H.
    apply elem_of_app in H as [H|H]; [by apply conditionSamples_range in H|].
    apply list_elem_of_singleton in H as ->. discriminate Hm.
  - intros p m [Hm H]%list_elem_of_filter. unfold plantSamples in H.
    apply elem_of_app in H as [H|H]; [by apply conditionSamples_range in H|].
    apply list_elem_of_singleton in H as ->. discriminate Hm.
  - intros osv s. unfold shootSamples, conditionSamples. rewrite !ofMetric_app.
    rewrite ofMetric_fmap_eq by reflexivity.
    destruct (shootWorkers s), (shootLastOperation s), (shootResponseDuration s);
      apply app_nil_r.
  - intros s. unfold seedSamples, conditionSamples. rewrite ofMetric_app.
    rewrite ofMetric_fmap_eq by reflexivity. apply app_nil_r.
  - intros p. unfold plantSamples, conditionSamples. rewrite ofMetric_app.
    rewrite ofMetric_fmap_eq by reflexivity. apply app_nil_r.
Qed.

Lemma condition_value_total_witness :
  conditionValue (conditionState "Degraded") = (-1)%Z.
Proof.
  destruct (condition_value_total "Degraded") as (_ & _ & _ & _ & _ & H & _).
  apply H. intros H'.
  repeat (apply elem_of_cons in H' as [H'|H']; [discriminate H'|]).
  by apply elem_of_nil in H'.
Defined.

(** *** The walk over a snapshot *)

Lemma extractObject_emitted {A} (kind : string) (f : A -> list Sample) e (o : Object A) :
  emitted (extractObject kind f e o)
  = emitted e ++ match o with WellFormed a => f a | _ => [] end.
Proof. destruct o; simpl; by rewrite ?app_nil_r. Qed.

Lemma extractObject_failed {A} (kind : string) (f : A -> list Sample) e (o : Object A) :
  failed (extractObject kind f e o)
  = failed e ++ match failureReason o with Some r => [(kind, r)] | None => [] end.
Proof. destruct o; simpl; by rewrite ?app_nil_r. Qed.

Lemma extract_fold {A} (kind : string) (f : A -> list Sample) (objs : list (Object A)) : forall e,
  emitted (foldl (extractObject kind f) e objs)
  = emitted e ++ concat (f <$> wellFormed objs)
  /\ failed (foldl (extractObject kind f) e objs)
     = failed e ++ omap (fun o => (fun r : string => (kind, r)) <$> failureReason o) objs.
Proof.
  induction objs as [|o objs IH]; intros e; simpl.
  - by rewrite !app_nil_r.
  - destruct (IH (extractObject kind f e o)) as [-> ->].
    rewrite extractObject_emitted, extractObject_failed.
    destruct o; simpl; rewrite <- ?app_assoc; by rewrite ?app_nil_r.
Qed.

(** What an extractor sends and counts: the samples of the well-formed
    objects in snapshot order, and one failure per object it cannot read. *)
Lemma extractObjects_spec {A} (kind : string) (f : A -> list Sample) (objs : list (Object A)) :
  emitted (extractObjects kind f objs) = concat (f <$> wellFormed objs)
  /\ failed (extractObjects kind f objs)
     = omap (fun o => (fun r : string => (kind, r)) <$> failureReason o) objs.
Proof. unfold extractObjects. by destruct (extract_fold kind f objs (mkEmission [] [])). Qed.

Lemma wellFormed_app {A} (l1 l2 : list (Object A)) :
  wellFormed (l1 ++ l2) = wellFormed l1 ++ wellFormed l2.
Proof. unfold wellFormed. apply omap_app. Qed.

Lemma no_failure_when_valid {A} (kind : string) (objs : list (Object A)) :
  Forall (fun o => failureReason o = None) objs ->
  omap (fun o => (fun r : string => (kind, r)) <$> failureReason o) objs = []
  /\ length (wellFormed objs) = length objs.
Proof.
  induction 1 as [|o objs Ho _ [IH1 IH2]]; [done|].
  destruct o; simplify_eq/=. rewrite IH1. split; [done|].
  unfold wellFormed in *. simpl. by f_equal.
Qed.

(** C5: when one object of a snapshot cannot be processed and the others
    can, the extractor skips that object only: it sends what it would send
    without it, namely the samples of every other object, counts one
    failure under the kind and the reason, and the failure counter goes
    up by one at those labels and nowhere else. *)
Theorem failure_isolation {A} (kind : string) (samplesOf : A -> list Sample)
    (pre post : list (Object A)) (bad : Object A) (reason : string) :
  failureReason bad = Some reason ->
  Forall (fun o => failureReason o = None) (pre ++ post) ->
  let e := extractObjects kind samplesOf (pre ++ bad :: post) in
  emitted e = emitted (extractObjects kind samplesOf (pre ++ post))
  /\ emitted e = concat (samplesOf <$> wellFormed (pre ++ post))
  /\ length (wellFormed (pre ++ post)) = length pre + length post
  /\ failed e = [(kind, reason)]
  /\ forall k w,
       let w' := invoke k e w in
       scrapeFailures w' !! (kind, reason)
         = Some (S (default 0 (scrapeFailures w !! (kind, reason))))
       /\ (forall l, l <> (kind, reason) ->
             scrapeFailures w' !! l = scrapeFailures w !! l)
       /\ ch w' = ch w ++ concat (samplesOf <$> wellFormed (pre ++ post)).
Proof.
  intros Hbad Hok e. subst e.
  destruct (extractObjects_spec kind samplesOf (pre ++ bad :: post)) as [E F].
  destruct (extractObjects_spec kind samplesOf (pre ++ post)) as [E' _].
  destruct (no_failure_when_valid kind _ Hok) as [N L].
  assert (W : wellFormed (pre ++ bad :: post) = wellFormed (pre ++ post)).
  { rewrite !wellFormed_app. f_equal. destruct bad; simplify_eq/=; done. }
  assert (F' : failed (extractObjects kind samplesOf (pre ++ bad :: post))
               = [(kind, reason)]).
  { rewrite F. rewrite omap_app in N |- *. apply app_eq_nil in N as [N1 N2].
    rewrite N1. cbn [app omap list_omap]. rewrite Hbad. cbn [fmap option_fmap option_map].
    fold (@omap list _ _ _ (fun o : Object A => (fun r : string => (kind, r)) <$> failureReason o) post).
    by rewrite N2. }
  rewrite W in E. split; [by rewrite E, E'|]. split; [exact E|].
  split; [by rewrite L, length_app|]. split; [exact F'|].
  intros k w w'. subst w'. rewrite invoke_ch, E. unfold invoke. simpl.
  rewrite F'. simpl. unfold incFailure. split; [apply lookup_insert_eq|].
  split; [|reflexivity]. intros l Hl. by apply lookup_insert_ne.
Qed.

Lemma failure_isolation_witness :
  let plant n := mkPlant n "garden-dev" "aws" "eu-west-1" "1.16.3"
                   [mkCondition "APIServerAvailable" "Healthy"] in
  let e := collectPlants [WellFormed (plant "a"); WellFormed (plant "b");
                          MalformedField "spec"; WellFormed (plant "c");
                          WellFormed (plant "d")] in
  emitted e = concat (plantSamples <$> [plant "a"; plant "b"; plant "c"; plant "d"])
  /\ failed e = [("plant", "malformed field")].
Proof.
  intros plant e.
  destruct (failure_isolation "plant" plantSamples
              [WellFormed (plant "a"); WellFormed (plant "b")]
              [WellFormed (plant "c"); WellFormed (plant "d")]
              (MalformedField "spec") "malformed field" eq_refl)
    as (_ & H2 & _ & H4 & _).
  - repeat constructor.
  - split; [exact H2|exact H4].
Defined.

Lemma ofMetric_concat {A} n (f : A -> list Sample) (g : A -> list Sample) (l : list A) :
  (forall x, ofMetric n (f x) = g x) ->
  ofMetric n (concat (f <$> l)) = concat (g <$> l).
Proof.
  intros H. induction l as [|x l IH]; [done|]. rewrite !fmap_cons. cbn [concat].
  by rewrite ofMetric_app, H, IH.
Qed.

Lemma concat_singletons {A B} (f : A -> B) (l : list A) :
  concat ((fun x => [f x]) <$> l) = f <$> l.
Proof.
  induction l as [|x l IH]; [done|]. rewrite !fmap_cons. cbn [concat app].
  by rewrite IH.
Qed.

Lemma concat_nils {A B} (l : list A) :
  concat ((fun _ => @nil B) <$> l) = [].
Proof. induction l as [|x l IH]; [done|]. rewrite fmap_cons. exact IH. Qed.

Lemma ofMetric_operationsTotal n shoots :
  ofMetric n (operationsTotalSamples shoots)
  = if decide (n = metricGardenOperationsTotal)
    then operationsTotalSamples shoots else [].
Proof.
  unfold operationsTotalSamples. case_decide as Hn.
  - subst n. by apply ofMetric_fmap_eq.
  - apply ofMetric_fmap_ne. intros x E. by apply Hn.
Qed.

(** The info sample of a shoot. *)
Lemma shoot_info_sample osv s :
  ofMetric metricGardenShootInfo (shootSamples osv s)
  = [mkSample metricGardenShootInfo
       [shootName s; shootProject s; shootIaas s; shootVersion s;
        shootRegion s; shootSeed s; formatBool (shootIsSeed s)] 1%Z].
Proof.
  unfold shootSamples. rewrite !ofMetric_app. unfold conditionSamples.
  rewrite ofMetric_fmap_ne; [|intros x; discriminate].
  destruct (shootWorkers s), (shootLastOperation s), (shootResponseDuration s);
    reflexivity.
Qed.

Lemma shoot_no_operationsTotal osv s :
  ofMetric metricGardenOperationsTotal (shootSamples osv s) = [].
Proof.
  unfold shootSamples. rewrite !ofMetric_app. unfold conditionSamples.
  rewrite ofMetric_fmap_ne; [|intros x; discriminate].
  destruct (shootWorkers s), (shootLastOperation s), (shootResponseDuration s);
    reflexivity.
Qed.

Lemma collectShoots_emitted osv objs :
  emitted (collectShoots osv objs)
  = concat (shootSamples osv <$> wellFormed objs)
    ++ operationsTotalSamples (wellFormed objs).
Proof.
  unfold collectShoots. simpl.
  by destruct (extractObjects_spec "shoot" (shootSamples osv) objs) as [-> _].
Qed.

(** C8: every shoot of the snapshot gets exactly one [shoot_info] sample,
    of value 1, whatever conditions it carries: the info samples of a
    scrape are those of the shoots, one each and in snapshot order, and
    attaching other conditions to a shoot leaves its info sample as it
    is. *)
Theorem shoot_info_once (operationStateValue : string -> Z)
    (objs : list (Object Shoot)) :
  let info s :=
    mkSample metricGardenShootInfo
      [shootName s; shootProject s; shootIaas s; shootVersion s;
       shootRegion s; shootSeed s; formatBool (shootIsSeed s)] 1%Z in
  let sent := emitted (collectShoots operationStateValue objs) in
  (forall s, ofMetric metricGardenShootInfo (shootSamples operationStateValue s)
             = [info s])
  /\ (forall s cs,
        ofMetric metricGardenShootInfo
          (shootSamples operationStateValue (withConditions cs s))
        = ofMetric metricGardenShootInfo (shootSamples operationStateValue s))
  /\ ofMetric metricGardenShootInfo sent = info <$> wellFormed objs
  /\ length (ofMetric metricGardenShootInfo sent) = length (wellFormed objs)
  /\ Forall (fun m => value m = 1%Z) (ofMetric metricGardenShootInfo sent).
Proof.
  intros info sent. subst sent.
  assert (E : ofMetric metricGardenShootInfo
                (emitted (collectShoots operationStateValue objs))
              = info <$> wellFormed objs).
  { rewrite collectShoots_emitted, ofMetric_app, ofMetric_operationsTotal.
    rewrite decide_False by discriminate. rewrite app_nil_r.
    rewrite (ofMetric_concat _ _ (fun s => [info s]));
      [apply concat_singletons|apply shoot_info_sample]. }
  split; [apply shoot_info_sample|]. split.
  { intros s cs. by rewrite !shoot_info_sample. }
  split; [exact E|]. split; [by rewrite E, length_fmap|].
  rewrite E. apply Forall_fmap, Forall_true. reflexivity.
Qed.

Lemma countOperation_seed counters s :
  shootIsSeed s = true -> countOperation counters s = counters.
Proof. unfold countOperation. by intros ->. Qed.

Lemma operationsTotal_skip_seed l1 l2 s :
  shootIsSeed s = true ->
  operationsTotalSamples (l1 ++ s :: l2) = operationsTotalSamples (l1 ++ l2).
Proof.
  intros H. unfold operationsTotalSamples.
  rewrite !foldl_app. simpl. by rewrite countOperation_seed.
Qed.

Lemma shootSamples_metrics osv s :
  metric <$> shootSamples osv s
  = ((fun _ => metricGardenShootCondition) <$> shootConditions s)
    ++ [metricGardenShootInfo; metricGardenShootCreation; metricGardenShootHibernated]
    ++ (match shootWorkers s with
        | [] => []
        | _ => [metricGardenShootNodeMaxTotal; metricGardenShootNodeMinTotal]
        end)
    ++ (match shootLastOperation s with
        | None => []
        | Some _ => [metricGardenShootOperationState;
                     metricGardenShootOperationProgressPercent]
        end)
    ++ (match shootResponseDuration s with
        | None => []
        | Some _ => [metricGardenShootResponseDuration]
        end).
Proof.
  unfold shootSamples, conditionSamples. rewrite !fmap_app, <- list_fmap_compose.
  destruct (shootWorkers s), (shootLastOperation s), (shootResponseDuration s);
    reflexivity.
Qed.

(** C4: a shoot that acts as a seed adds nothing to [operations_total]:
    the aggregate of a snapshot is the one of the snapshot without that
    shoot, and none of the shoot's own samples is on that metric. The
    shoot still gets every per-shoot sample: they are all sent, and they
    are on the same metrics as for any shoot (one condition sample per
    condition, info, creation timestamp and hibernation, node bounds with
    worker pools, operation state and progress with an operation,
    response duration when measured). *)
Theorem seed_shoots_not_aggregated (operationStateValue : string -> Z)
    (pre post : list (Object Shoot)) (s : Shoot) :
  shootIsSeed s = true ->
  let scrape := emitted (collectShoots operationStateValue
                           (pre ++ WellFormed s :: post)) in
  let without := emitted (collectShoots operationStateValue (pre ++ post)) in
  ofMetric metricGardenOperationsTotal scrape
    = ofMetric metricGardenOperationsTotal without
  /\ ofMetric metricGardenOperationsTotal scrape
     = operationsTotalSamples (wellFormed (pre ++ post))
  /\ ofMetric metricGardenOperationsTotal (shootSamples operationStateValue s) = []
  /\ (forall m, m ∈ shootSamples operationStateValue s -> m ∈ scrape)
  /\ metric <$> shootSamples operationStateValue s
     = metric <$> shootSamples operationStateValue (withIsSeed false s)
  /\ metric <$> shootSamples operationStateValue s
     = ((fun _ => metricGardenShootCondition) <$> shootConditions s)
       ++ [metricGardenShootInfo; metricGardenShootCreation;
           metricGardenShootHibernated]
       ++ (match shootWorkers s with
           | [] => []
           | _ => [metricGardenShootNodeMaxTotal; metricGardenShootNodeMinTotal]
           end)
       ++ (match shootLastOperation s with
           | None => []
           | Some _ => [metricGardenShootOperationState;
                        metricGardenShootOperationProgressPercent]
           end)
       ++ (match shootResponseDuration s with
           | None => []
           | Some _ => [metricGardenShootResponseDuration]
           end).
Proof.
  intros Hseed scrape without. subst scrape without.
  assert (O : forall objs,
            ofMetric metricGardenOperationsTotal
              (emitted (collectShoots operationStateValue objs))
            = operationsTotalSamples (wellFormed objs)).
  { intros objs. rewrite collectShoots_emitted, ofMetric_app, ofMetric_operationsTotal.
    rewrite decide_True by reflexivity.
    rewrite (ofMetric_concat _ _ (fun _ => [])); [by rewrite concat_nils|].
    apply shoot_no_operationsTotal. }
  assert (W : wellFormed (pre ++ WellFormed s :: post)
              = wellFormed pre ++ s :: wellFormed post).
  { by rewrite wellFormed_app. }
  rewrite !O, W, wellFormed_app, (operationsTotal_skip_seed _ _ _ Hseed).
  split; [reflexivity|]. split; [reflexivity|].
  split; [apply shoot_no_operationsTotal|]. split.
  { intros m Hm. rewrite collectShoots_emitted, W. apply elem_of_app. left.
    rewrite fmap_app, concat_app. apply elem_of_app. right. simpl.
    apply elem_of_app. by left. }
  split; [by rewrite !shootSamples_metrics|apply shootSamples_metrics].
Qed.

Lemma seed_shoots_not_aggregated_witness :
  let shoot n seed :=
    mkShoot n "garden-dev" "aws" "eu-west-1" "1.16.3" "aws-eu1" "evaluation"
      "5a3c" false 1572566400%Z [mkCondition "APIServerAvailable" "Healthy"]
      (Some (mkOperation "Reconcile" "Succeeded" 100%Z)) seed
      [mkWorker 1%Z 3%Z] (Some 12%Z) in
  ofMetric metricGardenOperationsTotal
    (emitted (collectShoots (fun _ => 0%Z)
                [WellFormed (shoot "a" false); WellFormed (shoot "b" true)]))
  = operationsTotalSamples [shoot "a" false].
Proof.
  intros shoot.
  exact (proj1 (proj2 (seed_shoots_not_aggregated (fun _ => 0%Z)
                         [WellFormed (shoot "a" false)] [] (shoot "b" true) eq_refl))).
Defined.

End GardenFacts.

(** ** Concrete runs *)

Lemma Describe_idempotent_witness :
  let c := newCollector [] [] [] [] (LoggerRef 0) in
  let it := map_to_list getGardenMetricsDefinitions in
  (Describe [] c it []).1 = c /\ (Describe [] (Describe [] c it []).1 it []).1 = c.
Proof.
  intros c it.
  destruct (Describe_idempotent [] c it it [] []) as (H1 & H2 & _).
  - unfold rangeOver. reflexivity.
  - unfold rangeOver. reflexivity.
  - split; [exact H1|exact H2].
Defined.

Lemma Describe_set_deterministic_witness :
  let c := newCollector [] [] [] [] (LoggerRef 0) in
  let it := map_to_list getGardenMetricsDefinitions in
  exists p1 p2,
    (Describe [] c it []).2 = p1 ++ [] /\ (Describe [] c it []).2 = p2 ++ []
    /\ length p1 = 16 /\ length p2 = 16.
Proof.
  intros c it.
  destruct (proj1 (Describe_set_deterministic [] [] [] [] [] (LoggerRef 0)) it it)
    as (p1 & p2 & H1 & H2 & L1 & L2 & _).
  - unfold rangeOver. reflexivity.
  - unfold rangeOver. reflexivity.
  - exists p1, p2. repeat split; assumption.
Defined.

(** On a fresh registry the first call returns, and the second is refused
    because the collector is already registered. *)
Example SetupMetricsCollector_fresh :
  let it := map_to_list getGardenMetricsDefinitions in
  let first :=
    SetupMetricsCollector [] Garden.scrapeFailuresDesc [] [] [] [] (LoggerRef 0)
      it Registry.empty in
  Registry.isPanic first = false
  /\ match SetupMetricsCollector [] Garden.scrapeFailuresDesc [] [] [] []
             (LoggerRef 0) it (Registry.registryOf first) with
     | Registry.Panicked e _ => Some e
     | Registry.Returned _ => None
     end = Some Registry.AlreadyRegistered.
Proof. split; vm_compute; reflexivity. Qed.

(** * Further properties of the catalog and of the registration *)

Lemma catalog_key_is_name k d :
  getGardenMetricsDefinitions !! k = Some d -> fqName d = k.
Proof.
  intros H. apply definitions_lookup in H. unfold gardenMetricsEntries in H.
  repeat (apply elem_of_cons in H as [H|H]; [by injection H as -> ->|]).
  by apply elem_of_nil in H.
Qed.

Lemma catalog_desc_valid k d :
  getGardenMetricsDefinitions !! k = Some d ->
  err d = false /\ isValidMetricName (fqName d) = true
  /\ forallb checkLabelName (variableLabels d) = true
  /\ hasDuplicates (variableLabels d) = false
  /\ help d <> "".
Proof.
  intros H. apply definitions_lookup in H. unfold gardenMetricsEntries in H.
  repeat (apply elem_of_cons in H as [H|H];
          [injection H as -> ->; repeat split; try (vm_compute; reflexivity);
           discriminate|]).
  by apply elem_of_nil in H.
Qed.

(** X1: every descriptor built by [getGardenMetricsDefinitions] is a valid
    one: [NewDesc] records no error for it, since its name is a valid
    metric name and its labels are valid label names without repetition;
    and its help text is not empty. *)
Theorem catalog_descriptors_valid :
  Forall (fun kv =>
            err kv.2 = false
            /\ isValidMetricName (fqName kv.2) = true
            /\ forallb checkLabelName (variableLabels kv.2) = true
            /\ hasDuplicates (variableLabels kv.2) = false
            /\ help kv.2 <> "")
         (map_to_list getGardenMetricsDefinitions).
Proof.
  apply Forall_forall. intros [k d] H. apply elem_of_map_to_list in H.
  by apply catalog_desc_valid in H.
Qed.

Lemma catalog_names it :
  rangeOver getGardenMetricsDefinitions it ->
  (list_to_set (Registry.descID <$> it.*2) : gset string)
  = dom getGardenMetricsDefinitions.
Proof.
  intros H. apply set_eq. intros x.
  rewrite elem_of_list_to_set, list_elem_of_fmap, elem_of_dom. split.
  - intros (d & -> & Hd). apply (elem_of_range_values _ _ _ H) in Hd as [k Hk].
    exists d. unfold Registry.descID. by rewrite (catalog_key_is_name _ _ Hk).
  - intros [d Hd]. exists d. split.
    + symmetry. by apply catalog_key_is_name.
    + apply (elem_of_range_values _ _ _ H). by exists x.
Qed.

Module RegistryOrder.
Import Registry.

(** X2: the iteration order of the catalog does not show in the outcome of
    [SetupMetricsCollector]: for any two admissible iterations the call
    either panics for both or returns for both, and leaves the same
    registry. *)
Theorem SetupMetricsCollector_order_independent
    (custom : list Desc) (scrapeFailures : Desc)
    (shoots : list (Garden.Object Garden.Shoot))
    (seeds : list (Garden.Object Garden.Seed))
    (projects : list (Garden.Object Garden.Project))
    (plants : list (Garden.Object Garden.Plant)) (lg : Logger)
    (it1 it2 : list (string * Desc)) (r : Registry) :
  rangeOver getGardenMetricsDefinitions it1 ->
  rangeOver getGardenMetricsDefinitions it2 ->
  let run1 := SetupMetricsCollector custom scrapeFailures
                shoots seeds projects plants lg it1 r in
  let run2 := SetupMetricsCollector custom scrapeFailures
                shoots seeds projects plants lg it2 r in
  isPanic run1 = isPanic run2 /\ registryOf run1 = registryOf run2.
Proof.
  intros H1 H2 run1 run2. subst run1 run2. rewrite !SetupMetricsCollector_eq.
  assert (P : it1.*2 ++ custom ≡ₚ it2.*2 ++ custom).
  { by rewrite (rangeOver_values _ _ H1), (rangeOver_values _ _ H2). }
  pose proof (RegistryFacts.Register_perm r _ _ P) as S.
  destruct (Register r (it1.*2 ++ custom)) as [e1|r1],
           (Register r (it2.*2 ++ custom)) as [e2|r2]; simplify_eq/=; [done|].
  by destruct (Register r2 [scrapeFailures]).
Qed.

Lemma SetupMetricsCollector_order_independent_witness :
  let it := map_to_list getGardenMetricsDefinitions in
  isPanic (SetupMetricsCollector [] Garden.scrapeFailuresDesc [] [] [] []
             (LoggerRef 0) it empty)
  = isPanic (SetupMetricsCollector [] Garden.scrapeFailuresDesc [] [] [] []
               (LoggerRef 0) (reverse it) empty).
Proof.
  intros it.
  destruct (SetupMetricsCollector_order_independent [] Garden.scrapeFailuresDesc
              [] [] [] [] (LoggerRef 0) it (reverse it) empty) as [H _].
  - unfold rangeOver. reflexivity.
  - unfold rangeOver. apply reverse_Permutation.
  - exact H.
Defined.

(** What a passed turn of the loop has checked, and how it extends the
    dimensions seen so far. *)
Lemma check_sound r acc d acc' :
  check r acc d = inr acc' ->
  err d = false
  /\ match dimHashesByName r !! fqName d with
     | Some h => h = dimHash d
     | None => newDimHashesByName acc' !! fqName d = Some (dimHash d)
     end
  /\ (forall k h, newDimHashesByName acc !! k = Some h ->
                  newDimHashesByName acc' !! k = Some h)
  /\ dom (newDimHashesByName acc') ⊆ {[descID d]} ∪ dom (newDimHashesByName acc).
Proof.
  unfold check, descID. intros H.
  destruct (err d); [done|].
  destruct (dimHashesByName r !! fqName d) as [h|] eqn:Hr.
  - destruct (decide (h = dimHash d)); [|done]. simplify_eq/=.
    repeat split; [done|set_solver].
  - destruct (newDimHashesByName acc !! fqName d) as [h|] eqn:Ha.
    + destruct (decide (h = dimHash d)); [|done]. simplify_eq/=.
      repeat split; [done|done|set_solver].
    + simplify_eq/=. split; [done|]. split; [apply lookup_insert_eq|]. split.
      * intros k h Hk. rewrite lookup_insert_ne; [done|]. by intros <-; simplify_eq.
      * by rewrite dom_insert_L.
Qed.

Lemma checkAll_sound r ds : forall acc acc',
  checkAll r acc ds = inr acc' ->
  (forall d, d ∈ ds ->
     err d = false
     /\ match dimHashesByName r !! fqName d with
        | Some h => h = dimHash d
        | None => newDimHashesByName acc' !! fqName d = Some (dimHash d)
        end)
  /\ (forall k h, newDimHashesByName acc !! k = Some h ->
                  newDimHashesByName acc' !! k = Some h)
  /\ dom (newDimHashesByName acc')
     ⊆ list_to_set (descID <$> ds) ∪ dom (newDimHashesByName acc).
Proof.
  induction ds as [|d ds IH]; intros acc acc' H; simpl in H.
  - simplify_eq. split; [by intros d Hd%elem_of_nil|]. split; [done|set_solver].
  - destruct (check r acc d) as [e|acc1] eqn:E; [done|].
    apply check_sound in E as (E1 & E2 & E3 & E4).
    apply IH in H as (H1 & H2 & H3). split; [|split].
    + intros x Hx. apply elem_of_cons in Hx as [Hx|Hx]; [subst x|by apply H1].
      split; [done|]. destruct (dimHashesByName r !! fqName d); [done|].
      by apply H2.
    + intros k h Hk. by apply H2, E3.
    + rewrite fmap_cons, list_to_set_cons. clear -H3 E4. set_solver.
Qed.

(** A collector that describes an invalid descriptor, or two descriptors
    of one name that differ in help text or label names, is refused. *)
Lemma Register_refuses_invalid r ds d :
  d ∈ ds -> err d = true -> accepted (Register r ds) = None.
Proof.
  intros Hd He. unfold Register.
  destruct (checkAll r _ ds) as [e|acc] eqn:E; [done|].
  apply checkAll_sound in E as (E & _). destruct (E d Hd) as [E' _]. congruence.
Qed.

Lemma Register_refuses_inconsistent r ds c d :
  c ∈ ds -> d ∈ ds -> fqName c = fqName d -> dimHash c <> dimHash d ->
  accepted (Register r ds) = None.
Proof.
  intros Hc Hd Hn Hdim. unfold Register.
  destruct (checkAll r _ ds) as [e|acc] eqn:E; [done|].
  apply checkAll_sound in E as (E & _).
  destruct (E c Hc) as [_ Ec]. destruct (E d Hd) as [_ Ed].
  rewrite Hn in Ec. destruct (dimHashesByName r !! fqName d); congruence.
Qed.

Lemma Register_dims_dom r ds r' :
  Register r ds = inr r' ->
  dom (dimHashesByName r')
  ⊆ list_to_set (descID <$> ds) ∪ dom (dimHashesByName r).
Proof.
  unfold Register. intros H.
  destruct (checkAll r _ ds) as [e|acc] eqn:E; [done|].
  apply checkAll_sound in E as (_ & _ & E). simpl in E. rewrite dom_empty_L in E.
  destruct (decide (newDescIDs acc = ∅)).
  - simplify_eq/=. set_solver.
  - destruct (decide (newDescIDs acc ∈ collectorsByID r)); [done|].
    destruct (duplicateDesc acc); [done|]. simplify_eq/=.
    rewrite dom_union_L. set_solver.
Qed.

(** Registering a collector with one valid descriptor whose name the
    registry does not know yet. *)
Lemma Register_single r d :
  err d = false ->
  dimHashesByName r !! fqName d = None ->
  descID d ∉ descIDs r ->
  {[descID d]} ∉ collectorsByID r ->
  exists r', Register r [d] = inr r'
             /\ descIDs r' = {[descID d]} ∪ descIDs r
             /\ collectorsByID r' = {[ {[descID d]} ]} ∪ collectorsByID r.
Proof.
  intros He Hdim Hid Hcol. unfold Register, checkAll, check.
  cbn [newDimHashesByName newDescIDs duplicateDesc].
  rewrite He, Hdim, lookup_empty.
  cbn [newDimHashesByName newDescIDs duplicateDesc orb].
  rewrite bool_decide_eq_false_2 by done. rewrite union_empty_r_L.
  rewrite decide_False by (apply non_empty_singleton_L).
  rewrite decide_False by done.
  eexists. split; [reflexivity|]. by split.
Qed.

Lemma catalog_accepted_fresh :
  match Register empty (map_to_list getGardenMetricsDefinitions).*2 with
  | inl _ => false
  | inr _ => true
  end = true.
Proof. vm_compute. reflexivity. Qed.

(** X3: on a registry that holds nothing, with no customization
    descriptors, [SetupMetricsCollector] returns for every iteration order
    of the catalog, provided the descriptor of the scrape-failure counter
    is valid and its name is not a name of the catalog; the registry then
    holds the sixteen catalog names and that of the counter, as two
    collectors. *)
Theorem SetupMetricsCollector_fresh_returns
    (scrapeFailures : Desc)
    (shoots : list (Garden.Object Garden.Shoot))
    (seeds : list (Garden.Object Garden.Seed))
    (projects : list (Garden.Object Garden.Project))
    (plants : list (Garden.Object Garden.Plant)) (lg : Logger)
    (it : list (string * Desc)) :
  rangeOver getGardenMetricsDefinitions it ->
  err scrapeFailures = false ->
  fqName scrapeFailures ∉ dom getGardenMetricsDefinitions ->
  let out := SetupMetricsCollector [] scrapeFailures
               shoots seeds projects plants lg it empty in
  isPanic out = false
  /\ descIDs (registryOf out)
     = {[fqName scrapeFailures]} ∪ dom getGardenMetricsDefinitions
  /\ collectorsByID (registryOf out)
     = {[ {[fqName scrapeFailures]}; dom getGardenMetricsDefinitions ]}
  /\ size (descIDs (registryOf out)) = 17.
Proof.
  intros H He Hn out. subst out. rewrite SetupMetricsCollector_eq, app_nil_r.
  pose proof (catalog_names _ H) as N.
  pose proof (RegistryFacts.Register_perm empty _ _ (rangeOver_values _ _ H)) as P.
  pose proof catalog_accepted_fresh as F.
  destruct (Register empty (map_to_list getGardenMetricsDefinitions).*2);
    [discriminate F|]. clear F.
  destruct (Register empty it.*2) as [e|r1] eqn:R1; [discriminate P|]. clear P.
  pose proof (Register_dims_dom _ _ _ R1) as D.
  apply RegistryFacts.Register_ok in R1 as (I1 & C1 & _).
  2:{ intros E.
      assert (X : metricGardenUsersSum ∈ dom getGardenMetricsDefinitions).
      { apply elem_of_dom. eexists. vm_compute. reflexivity. }
      rewrite <- N, E in X.
      apply elem_of_list_to_set, list_elem_of_fmap in X as (? & _ & X).
      by apply elem_of_nil in X. }
  rewrite N in I1, C1, D. unfold empty in I1, C1, D.
  cbn [descIDs collectorsByID dimHashesByName] in I1, C1, D.
  rewrite dom_empty_L in D.
  rewrite union_empty_r_L in I1. rewrite union_empty_r_L in C1.
  rewrite union_empty_r_L in D.
  destruct (Register_single r1 scrapeFailures He) as (r2 & -> & I2 & C2).
  - apply not_elem_of_dom. intros X. apply Hn. by apply D.
  - by rewrite I1.
  - rewrite C1. intros X%elem_of_singleton. apply Hn. rewrite <- X.
    by apply elem_of_singleton.
  - cbn [isPanic registryOf]. unfold descID in *. rewrite I2, C2, I1, C1.
    split; [done|]. split; [done|]. split; [set_solver|].
    rewrite size_union by (by apply disjoint_singleton_l).
    rewrite size_singleton, size_dom. reflexivity.
Qed.

Lemma SetupMetricsCollector_fresh_returns_witness :
  isPanic (SetupMetricsCollector [] Garden.scrapeFailuresDesc [] [] [] []
             (LoggerRef 0) (map_to_list getGardenMetricsDefinitions) empty)
  = false.
Proof.
  destruct (SetupMetricsCollector_fresh_returns Garden.scrapeFailuresDesc
              [] [] [] [] (LoggerRef 0) (map_to_list getGardenMetricsDefinitions))
    as [H _].
  - unfold rangeOver. reflexivity.
  - vm_compute. reflexivity.
  - apply not_elem_of_dom. vm_compute. reflexivity.
  - exact H.
Defined.

(** X4: a customization descriptor that is invalid, or that bears the name
    of a catalog metric with another help text or other label names, makes
    [SetupMetricsCollector] panic at the registration of the collector,
    whatever the registry holds; nothing is registered. *)
Theorem bad_customization_panics
    (custom : list Desc) (scrapeFailures : Desc)
    (shoots : list (Garden.Object Garden.Shoot))
    (seeds : list (Garden.Object Garden.Seed))
    (projects : list (Garden.Object Garden.Project))
    (plants : list (Garden.Object Garden.Plant)) (lg : Logger)
    (it : list (string * Desc)) (r : Registry) (d : Desc) :
  rangeOver getGardenMetricsDefinitions it ->
  d ∈ custom ->
  err d = true
  \/ (exists c, getGardenMetricsDefinitions !! fqName d = Some c
                /\ dimHash c <> dimHash d) ->
  let out := SetupMetricsCollector custom scrapeFailures
               shoots seeds projects plants lg it r in
  isPanic out = true /\ registryOf out = r.
Proof.
  intros H Hd Hbad out. subst out. rewrite SetupMetricsCollector_eq.
  assert (Hd' : d ∈ it.*2 ++ custom) by (apply elem_of_app; by right).
  assert (N : accepted (Register r (it.*2 ++ custom)) = None).
  { destruct Hbad as [He|(c & Hc & Hdim)].
    - by apply (Register_refuses_invalid r _ d).
    - apply (Register_refuses_inconsistent r _ c d); [|done| |done].
      + apply elem_of_app. left. apply (elem_of_range_values _ _ _ H). eauto.
      + by apply catalog_key_is_name. }
  destruct (Register r (it.*2 ++ custom)); [done|discriminate N].
Qed.

Lemma bad_customization_panics_witness :
  isPanic (SetupMetricsCollector
             [NewDesc metricGardenShootInfo "Information about a Shoot." ["name"]]
             Garden.scrapeFailuresDesc [] [] [] [] (LoggerRef 0)
             (map_to_list getGardenMetricsDefinitions) empty)
  = true.
Proof.
  destruct (bad_customization_panics
              [NewDesc metricGardenShootInfo "Information about a Shoot." ["name"]]
              Garden.scrapeFailuresDesc [] [] [] [] (LoggerRef 0)
              (map_to_list getGardenMetricsDefinitions) empty
              (NewDesc metricGardenShootInfo "Information about a Shoot." ["name"]))
    as [H _].
  - unfold rangeOver. reflexivity.
  - apply list_elem_of_singleton. reflexivity.
  - right. eexists. split; [vm_compute; reflexivity|].
    intros E. apply (f_equal (fun p => size p.2)) in E. vm_compute in E.
    discriminate E.
  - exact H.
Defined.

(** X5: [SetupMetricsCollector] registers the collector first and does not
    take it back: when the call panics and the registry has changed, the
    collector is registered (the catalog names and those of the
    customization descriptors are taken) and it is the scrape-failure
    counter that was refused. *)
Theorem counter_refused_keeps_collector
    (custom : list Desc) (scrapeFailures : Desc)
    (shoots : list (Garden.Object Garden.Shoot))
    (seeds : list (Garden.Object Garden.Seed))
    (projects : list (Garden.Object Garden.Project))
    (plants : list (Garden.Object Garden.Plant)) (lg : Logger)
    (it : list (string * Desc)) (r : Registry) :
  rangeOver getGardenMetricsDefinitions it ->
  let out := SetupMetricsCollector custom scrapeFailures
               shoots seeds projects plants lg it r in
  isPanic out = true ->
  registryOf out <> r ->
  descIDs (registryOf out)
    = dom getGardenMetricsDefinitions ∪ list_to_set (descID <$> custom) ∪ descIDs r
  /\ (dom getGardenMetricsDefinitions ∪ list_to_set (descID <$> custom))
       ∈ collectorsByID (registryOf out)
  /\ accepted (Register (registryOf out) [scrapeFailures]) = None.
Proof.
  intros H out. subst out. rewrite SetupMetricsCollector_eq.
  pose proof (catalog_names _ H) as N. pose proof (catalog_member _ H) as M.
  destruct (Register r (it.*2 ++ custom)) as [e|r1] eqn:R1.
  - intros _ Hne. by destruct Hne.
  - apply RegistryFacts.Register_ok in R1 as (I1 & C1 & _).
    2:{ intros E. apply app_eq_nil in E as [E _]. rewrite E in M.
        by apply elem_of_nil in M. }
    rewrite fmap_app, list_to_set_app_L, N in I1, C1.
    destruct (Register r1 [scrapeFailures]) as [e|r2] eqn:R2; [|discriminate].
    intros _ _. cbn [registryOf]. rewrite I1, C1, R2.
    split; [done|]. split; [|done]. apply elem_of_union_l. by apply elem_of_singleton.
Qed.

Lemma counter_refused_keeps_collector_witness :
  let out := SetupMetricsCollector [] (NewDesc "scrape failures" "Failures." [])
               [] [] [] [] (LoggerRef 0)
               (map_to_list getGardenMetricsDefinitions) empty in
  accepted (Register (registryOf out) [NewDesc "scrape failures" "Failures." []])
  = None.
Proof.
  intros out.
  destruct (counter_refused_keeps_collector [] (NewDesc "scrape failures" "Failures." [])
              [] [] [] [] (LoggerRef 0)
              (map_to_list getGardenMetricsDefinitions) empty) as (_ & _ & H).
  - unfold rangeOver. reflexivity.
  - vm_compute. reflexivity.
  - intros E. apply (f_equal (fun x => size (descIDs x))) in E.
    vm_compute in E. discriminate E.
  - exact H.
Defined.

End RegistryOrder.

(** ** Registration, twice *)

Module RegistryComplete.
Import Registry.

Lemma NoDup_fmap_eq {A B} (f : A -> B) (l : list A) x y :
  NoDup (f <$> l) -> x ∈ l -> y ∈ l -> f x = f y -> x = y.
Proof.
  induction l as [|a l IH]; intros Hnd Hx Hy E; [by apply elem_of_nil in Hx|].
  rewrite fmap_cons in Hnd. apply NoDup_cons in Hnd as [Ha Hnd].
  apply elem_of_cons in Hx as [->|Hx]; apply elem_of_cons in Hy as [->|Hy].
  - done.
  - exfalso. apply Ha. rewrite E. apply list_elem_of_fmap. by exists y.
  - exfalso. apply Ha. rewrite <- E. apply list_elem_of_fmap. by exists x.
  - by apply IH.
Qed.

(** A valid descriptor of a name the registry has no dimensions for passes
    the turn of the loop when it agrees with what the loop has seen. *)
Lemma check_complete r acc d :
  err d = false ->
  dimHashesByName r !! fqName d = None ->
  (forall h, newDimHashesByName acc !! fqName d = Some h -> h = dimHash d) ->
  exists acc', check r acc d = inr acc'
    /\ forall k h, newDimHashesByName acc' !! k = Some h ->
         newDimHashesByName acc !! k = Some h \/ (k = fqName d /\ h = dimHash d).
Proof.
  intros He Hr Ha. unfold check. rewrite He, Hr.
  destruct (newDimHashesByName acc !! fqName d) as [h|] eqn:E.
  - rewrite (Ha h eq_refl). rewrite decide_True by reflexivity.
    eexists. split; [reflexivity|]. intros k h' Hk. by left.
  - eexists. split; [reflexivity|]. intros k h' Hk. cbn [newDimHashesByName] in Hk.
    destruct (decide (fqName d = k)) as [<-|Hne].
    + rewrite lookup_insert_eq in Hk. right. by simplify_eq.
    + rewrite lookup_insert_ne in Hk by done. by left.
Qed.

Lemma checkAll_complete r ds : forall acc,
  (forall d, d ∈ ds -> err d = false /\ dimHashesByName r !! fqName d = None) ->
  (forall c d, c ∈ ds -> d ∈ ds -> fqName c = fqName d -> dimHash c = dimHash d) ->
  (forall d h, d ∈ ds -> newDimHashesByName acc !! fqName d = Some h ->
               h = dimHash d) ->
  exists acc', checkAll r acc ds = inr acc'.
Proof.
  induction ds as [|d ds IH]; intros acc Hv Hc Ha; [by eexists|]. simpl.
  destruct (Hv d) as [He Hr]; [by left|].
  destruct (check_complete r acc d He Hr) as (acc1 & -> & Hacc1).
  { intros h Hh. apply (Ha d h); [by left|done]. }
  apply IH.
  - intros x Hx. apply Hv. by right.
  - intros x y Hx Hy. apply Hc; by right.
  - intros x h Hx Hh. apply Hacc1 in Hh as [Hh|[Hn ->]].
    + apply (Ha x h); [by right|done].
    + symmetry. apply Hc; [by right|by left|done].
Qed.

(** Valid descriptors of names the registry does not know, which agree
    where they share a name, are registered. *)
Lemma Register_complete r ds :
  ds <> [] ->
  (forall d, d ∈ ds -> err d = false /\ ~ knows r (fqName d)) ->
  (forall c d, c ∈ ds -> d ∈ ds -> fqName c = fqName d -> dimHash c = dimHash d) ->
  consistent r ->
  exists r', Register r ds = inr r'.
Proof.
  intros Hne Hv Hc Hr. unfold Register.
  destruct (checkAll_complete r ds (mkSeen ∅ ∅ false)) as [acc E].
  - intros d Hd. destruct (Hv d Hd) as [He Hk]. split; [done|].
    destruct (dimHashesByName r !! fqName d) eqn:X; [|done].
    exfalso. apply Hk. right. by eexists.
  - exact Hc.
  - intros d h _ Hh. cbn [newDimHashesByName] in Hh. by rewrite lookup_empty in Hh.
  - rewrite E. apply RegistryFacts.checkAll_ok in E as [E1 E2].
    cbn [newDescIDs duplicateDesc orb] in E1, E2. rewrite union_empty_r_L in E1.
    destruct ds as [|d0 ds0]; [done|].
    assert (Hd0 : descID d0 ∈ newDescIDs acc).
    { rewrite E1, fmap_cons, list_to_set_cons. apply elem_of_union_l.
      by apply elem_of_singleton. }
    assert (Hn0 : descID d0 ∉ descIDs r).
    { intros X. destruct (Hv d0) as [_ Hk]; [by left|]. apply Hk. by left. }
    rewrite decide_False by (intros X; rewrite X in Hd0; by apply not_elem_of_empty in Hd0).
    rewrite decide_False by (intros X; apply Hn0; by apply (Hr _ X)).
    assert (D : duplicateDesc acc = false).
    { rewrite E2. apply not_true_is_false. intros X.
      apply existsb_exists in X as (d & Hd & Hb).
      apply bool_decide_eq_true in Hb. apply list_elem_of_In in Hd.
      destruct (Hv d Hd) as [_ Hk]. apply Hk. by left. }
    rewrite D. by eexists.
Qed.

End RegistryComplete.

(** The descriptors sent by [Describe] agree where they share a name, when
    the customization descriptors have names of their own. *)
Lemma described_agree (custom : list Desc) it c d :
  rangeOver getGardenMetricsDefinitions it ->
  NoDup (fqName <$> custom) ->
  (forall x, x ∈ custom -> fqName x ∉ dom getGardenMetricsDefinitions) ->
  c ∈ it.*2 ++ custom -> d ∈ it.*2 ++ custom -> fqName c = fqName d -> c = d.
Proof.
  intros H Hnd Hout Hc Hd E.
  assert (cat : forall x, x ∈ it.*2 ->
            getGardenMetricsDefinitions !! fqName x = Some x).
  { intros x Hx. apply (elem_of_range_values _ _ _ H) in Hx as [k Hk].
    by rewrite (catalog_key_is_name _ _ Hk). }
  apply elem_of_app in Hc as [Hc|Hc]; apply elem_of_app in Hd as [Hd|Hd].
  - apply cat in Hc. apply cat in Hd. rewrite E in Hc. congruence.
  - exfalso. apply (Hout d Hd). rewrite <- E. apply elem_of_dom. eexists. by apply cat.
  - exfalso. apply (Hout c Hc). rewrite E. apply elem_of_dom. eexists. by apply cat.
  - by apply (RegistryComplete.NoDup_fmap_eq fqName custom).
Qed.

(** On a registry that knows none of the names involved, the call returns:
    both registrations are accepted. *)
Lemma Setup_first_call_returns
    (custom : list Desc) (scrapeFailures : Desc)
    (shoots : list (Garden.Object Garden.Shoot))
    (seeds : list (Garden.Object Garden.Seed))
    (projects : list (Garden.Object Garden.Project))
    (plants : list (Garden.Object Garden.Plant)) (lg : Logger)
    (it : list (string * Desc)) (r : Registry.Registry) :
  rangeOver getGardenMetricsDefinitions it ->
  Forall (fun d => err d = false) (scrapeFailures :: custom) ->
  NoDup (fqName <$> scrapeFailures :: custom) ->
  (forall d, d ∈ scrapeFailures :: custom ->
             fqName d ∉ dom getGardenMetricsDefinitions) ->
  (forall n, n ∈ dom getGardenMetricsDefinitions
             \/ n ∈ fqName <$> scrapeFailures :: custom ->
             ~ Registry.knows r n) ->
  Registry.consistent r ->
  exists r1, SetupMetricsCollector custom scrapeFailures
               shoots seeds projects plants lg it r = Registry.Returned r1.
Proof.
  intros H Hv Hnd Hout Hun Hr. rewrite SetupMetricsCollector_eq.
  pose proof (catalog_member _ H) as M. pose proof (catalog_names _ H) as N.
  apply Forall_cons in Hv as [Hvs Hvc]. rewrite Forall_forall in Hvc.
  rewrite fmap_cons in Hnd. apply NoDup_cons in Hnd as [Hs Hnd].
  assert (Hne : it.*2 ++ custom <> []).
  { intros E. apply app_eq_nil in E as [E _]. rewrite E in M.
    by apply elem_of_nil in M. }
  destruct (RegistryComplete.Register_complete r (it.*2 ++ custom) Hne) as [r1 R1].
  - intros d Hd. apply elem_of_app in Hd as [Hd|Hd].
    + apply (elem_of_range_values _ _ _ H) in Hd as [k Hk]. split.
      * by destruct (catalog_desc_valid _ _ Hk).
      * apply Hun. left. apply elem_of_dom. exists d.
        by rewrite (catalog_key_is_name _ _ Hk).
    + split; [by apply Hvc|]. apply Hun. right. rewrite fmap_cons.
      right. apply list_elem_of_fmap. by exists d.
  - intros c d Hc Hd E. f_equal.
    apply (described_agree custom it c d H Hnd); [|exact Hc|exact Hd|exact E].
    intros x Hx. apply Hout. by right.
  - exact Hr.
  - rewrite R1. pose proof (RegistryOrder.Register_dims_dom _ _ _ R1) as D.
    apply RegistryFacts.Register_ok in R1 as (I1 & C1 & _); [|exact Hne].
    rewrite fmap_app, list_to_set_app_L, N in I1, C1, D.
    assert (Sn : fqName scrapeFailures
                 ∉ dom getGardenMetricsDefinitions
                   ∪ list_to_set (Registry.descID <$> custom)).
    { intros X. apply elem_of_union in X as [X|X].
      - apply (Hout scrapeFailures); [by left|done].
      - apply Hs. by apply elem_of_list_to_set in X. }
    assert (Sk : ~ Registry.knows r (fqName scrapeFailures)).
    { apply Hun. right. rewrite fmap_cons. by left. }
    destruct (RegistryOrder.Register_single r1 scrapeFailures Hvs)
      as (r2 & -> & _); [| | |by eexists].
    + apply not_elem_of_dom. intros X. apply D in X.
      apply elem_of_union in X as [X|X]; [by apply Sn|].
      apply Sk. right. by apply elem_of_dom.
    + rewrite I1. intros X. apply elem_of_union in X as [X|X]; [by apply Sn|].
      apply Sk. by left.
    + rewrite C1. intros X. apply elem_of_union in X as [X|X].
      * apply elem_of_singleton in X. apply Sn.
        change (Registry.descID scrapeFailures) with (fqName scrapeFailures) in X.
        rewrite <- X. by apply elem_of_singleton.
      * apply Sk. left. apply (Hr _ X). by apply elem_of_singleton.
Qed.

(** Whatever a first call did, a second call on the registry it left
    panics; and a first call that returned has registered both. *)
Lemma Setup_second_call_panics
    (custom : list Desc) (scrapeFailures : Desc)
    (shoots1 shoots2 : list (Garden.Object Garden.Shoot))
    (seeds1 seeds2 : list (Garden.Object Garden.Seed))
    (projects1 projects2 : list (Garden.Object Garden.Project))
    (plants1 plants2 : list (Garden.Object Garden.Plant))
    (lg1 lg2 : Logger)
    (it1 it2 : list (string * Desc)) (r : Registry.Registry) :
  rangeOver getGardenMetricsDefinitions it1 ->
  rangeOver getGardenMetricsDefinitions it2 ->
  let first :=
    SetupMetricsCollector custom scrapeFailures
      shoots1 seeds1 projects1 plants1 lg1 it1 r in
  let second :=
    SetupMetricsCollector custom scrapeFailures
      shoots2 seeds2 projects2 plants2 lg2 it2 (Registry.registryOf first) in
  Registry.isPanic second = true
  /\ Registry.registryOf second = Registry.registryOf first
  /\ (forall r1, first = Registry.Returned r1 ->
        let collectorID : gset string :=
          list_to_set (Registry.descID <$>
                         ((map_to_list getGardenMetricsDefinitions).*2 ++ custom)) in
        let counterID : gset string := {[Registry.descID scrapeFailures]} in
        (Registry.collectorsByID r1
          = {[counterID]} ∪ ({[collectorID]} ∪ Registry.collectorsByID r))
        /\ (collectorID ∉ Registry.collectorsByID r)
        /\ (counterID ∉ Registry.collectorsByID r)
        /\ counterID <> collectorID).
Proof.
  intros H1 H2 first second.
  pose proof (catalog_member _ H1) as M1.
  pose proof (catalog_member _ H2) as M2.
  pose proof (rangeOver_values _ _ H1) as V1.
  pose proof (rangeOver_values _ _ H2) as V2.
  clear H1 H2.
  set (d0 := NewDesc metricGardenUsersSum "Count of users." ["kind"]) in *.
  set (cat := (map_to_list getGardenMetricsDefinitions).*2) in *.
  clearbody d0 cat.
  assert (P : it1.*2 ++ custom ≡ₚ it2.*2 ++ custom) by (by rewrite V1, V2).
  assert (N1 : it1.*2 ++ custom <> []).
  { intros E. apply app_eq_nil in E as [E _]. rewrite E in M1.
    by apply elem_of_nil in M1. }
  assert (known : forall ra, Registry.descID d0 ∈ Registry.descIDs ra ->
            Registry.isPanic (SetupMetricsCollector custom scrapeFailures
              shoots2 seeds2 projects2 plants2 lg2 it2 ra) = true
            /\ Registry.registryOf (SetupMetricsCollector custom scrapeFailures
              shoots2 seeds2 projects2 plants2 lg2 it2 ra) = ra).
  { intros ra Hr.
    destruct (Setup_panics_when_known custom scrapeFailures shoots2 seeds2 projects2
                plants2 lg2 it2 ra d0 M2 Hr) as [e ->]. by split. }
  subst first second. rewrite (SetupMetricsCollector_eq _ _ shoots1).
  destruct (Registry.Register r (it1.*2 ++ custom)) as [e|ra] eqn:R1.
  - (* the collector was refused: it is refused again *)
    cbn [Registry.registryOf]. rewrite SetupMetricsCollector_eq.
    pose proof (RegistryFacts.Register_perm r _ _ P) as S. rewrite R1 in S.
    destruct (Registry.Register r (it2.*2 ++ custom)); [|discriminate S].
    split; [reflexivity|]. split; [reflexivity|]. intros r1 [=].
  - apply RegistryFacts.Register_ok in R1 as (Ia & Ca & Fa); [|exact N1].
    assert (Ka : Registry.descID d0 ∈ Registry.descIDs ra).
    { rewrite Ia. apply elem_of_union_l, elem_of_list_to_set, list_elem_of_fmap.
      exists d0. split; [reflexivity|]. apply elem_of_app. by left. }
    destruct (Registry.Register ra [scrapeFailures]) as [e|rb] eqn:R2.
    + (* the counter was refused: the collector stays registered *)
      cbn [Registry.registryOf]. destruct (known ra Ka) as [-> ->].
      split; [reflexivity|]. split; [reflexivity|]. intros r1 [=].
    + apply RegistryFacts.Register_ok in R2 as (Ib & Cb & Fb); [|discriminate].
      cbn [fmap list_fmap list_to_set foldr] in Ib, Cb, Fb.
      rewrite union_empty_r_L in Ib, Cb, Fb.
      assert (Kb : Registry.descID d0 ∈ Registry.descIDs rb).
      { rewrite Ib. apply elem_of_union_r, Ka. }
      cbn [Registry.registryOf]. destruct (known rb Kb) as [-> ->].
      split; [reflexivity|]. split; [reflexivity|]. intros r1 [= <-]. cbv zeta.
      assert (Q : (list_to_set (Registry.descID <$> (it1.*2 ++ custom)) : gset string)
                  = list_to_set (Registry.descID <$> (cat ++ custom))).
      { by rewrite V1. }
      rewrite <- Q. rewrite Cb, Ca. split; [reflexivity|]. split; [exact Fa|].
      rewrite Ca in Fb. apply not_elem_of_union in Fb as [Fb1 Fb2].
      split; [exact Fb2|]. intros E. apply Fb1. rewrite E. by apply elem_of_singleton.
Qed.

(** C2: [SetupMetricsCollector] registers the collector and the
    scrape-failure counter, once each. On a registry that knows none
    of the names involved the call returns; a call that returns has
    registered both, neither of which was registered before; and whatever
    the first call did (returned, or panicked in either registration), a
    second call on the registry it left panics and leaves that registry
    as it is. *)
Theorem SetupMetricsCollector_twice
    (custom : list Desc) (scrapeFailures : Desc)
    (shoots1 shoots2 : list (Garden.Object Garden.Shoot))
    (seeds1 seeds2 : list (Garden.Object Garden.Seed))
    (projects1 projects2 : list (Garden.Object Garden.Project))
    (plants1 plants2 : list (Garden.Object Garden.Plant))
    (lg1 lg2 : Logger)
    (it1 it2 : list (string * Desc)) (r : Registry.Registry) :
  rangeOver getGardenMetricsDefinitions it1 ->
  rangeOver getGardenMetricsDefinitions it2 ->
  let first :=
    SetupMetricsCollector custom scrapeFailures
      shoots1 seeds1 projects1 plants1 lg1 it1 r in
  let second :=
    SetupMetricsCollector custom scrapeFailures
      shoots2 seeds2 projects2 plants2 lg2 it2 (Registry.registryOf first) in
  Registry.isPanic second = true
  /\ Registry.registryOf second = Registry.registryOf first
  /\ (forall r1, first = Registry.Returned r1 ->
        let collectorID : gset string :=
          list_to_set (Registry.descID <$>
                         ((map_to_list getGardenMetricsDefinitions).*2 ++ custom)) in
        let counterID : gset string := {[Registry.descID scrapeFailures]} in
        (Registry.collectorsByID r1
          = {[counterID]} ∪ ({[collectorID]} ∪ Registry.collectorsByID r))
        /\ (collectorID ∉ Registry.collectorsByID r)
        /\ (counterID ∉ Registry.collectorsByID r)
        /\ counterID <> collectorID)
  /\ (Forall (fun d => err d = false) (scrapeFailures :: custom) ->
      NoDup (fqName <$> scrapeFailures :: custom) ->
      (forall d, d ∈ scrapeFailures :: custom ->
                 fqName d ∉ dom getGardenMetricsDefinitions) ->
      (forall n, n ∈ dom getGardenMetricsDefinitions
                 \/ n ∈ fqName <$> scrapeFailures :: custom ->
                 ~ Registry.knows r n) ->
      Registry.consistent r ->
      exists r1, first = Registry.Returned r1).
Proof.
  intros H1 H2 first second.
  destruct (Setup_second_call_panics custom scrapeFailures
              shoots1 shoots2 seeds1 seeds2 projects1 projects2 plants1 plants2
              lg1 lg2 it1 it2 r H1 H2) as (P1 & P2 & P3).
  split; [exact P1|]. split; [exact P2|]. split; [exact P3|].
  intros Hv Hnd Hout Hun Hr.
  by apply Setup_first_call_returns.
Qed.

Lemma SetupMetricsCollector_twice_witness :
  let it := map_to_list getGardenMetricsDefinitions in
  let first :=
    SetupMetricsCollector [] Garden.scrapeFailuresDesc [] [] [] [] (LoggerRef 0)
      it Registry.empty in
  Registry.isPanic first = false
  /\ Registry.isPanic
       (SetupMetricsCollector [] Garden.scrapeFailuresDesc [] [] [] [] (LoggerRef 0)
          it (Registry.registryOf first)) = true.
Proof.
  intros it first.
  destruct (SetupMetricsCollector_twice [] Garden.scrapeFailuresDesc
              [] [] [] [] [] [] [] [] (LoggerRef 0) (LoggerRef 0) it it Registry.empty)
    as (P & _ & _ & R).
  - unfold rangeOver. reflexivity.
  - unfold rangeOver. reflexivity.
  - split; [|exact P].
    destruct R as [r1 R].
    + repeat constructor.
    + apply NoDup_singleton.
    + intros d Hd. apply list_elem_of_singleton in Hd. subst d.
      apply not_elem_of_dom. vm_compute. reflexivity.
    + intros n _ [K|K]; unfold Registry.empty in K;
        cbn [Registry.descIDs Registry.dimHashesByName] in K.
      * exact (not_elem_of_empty n K).
      * rewrite lookup_empty in K. exact (is_Some_None K).
    + intros c K. unfold Registry.empty in K. cbn [Registry.collectorsByID] in K.
      destruct (not_elem_of_empty c K).
    + fold first in R. by rewrite R.
Defined.
